(** * VGN real-time dashboard: delay engine, fetcher, cache writer, queries

    A shallow embedding of the Python sources

    - [scripts/analysis_queries.py] (delay computation, KPIs, bucket
      distribution, static queries),
    - [vag_api_client.py] (departure fetcher),
    - [data_fetcher.py] (polling cycle and cache writer),

    together with the properties the specification states about them.

    Conventions.  Python [None] and JSON [null] are [JNull]; a Python
    [dict] is a [gmap]; a function that may raise returns a [result];
    a handler that swallows every [Exception] makes the function total.
    Timestamps are whole seconds since the epoch (the resolution the
    departures API delivers); on such values the float expression
    [total_seconds() / 60] is exact at every half-integer, so [round()]
    is modelled by exact round-half-to-even on the quotient.  Means and
    percentages, floats in the source, are exact rationals here. *)

From Stdlib Require Import ZArith QArith Lia Ascii String.
From stdpp Require Import gmap strings list fin_maps pretty.

Set Warnings "-register-all,-clear-no-such-hyp".
Local Open Scope Z_scope.

(** ** Python values *)

(** What [json.loads] / [response.json()] returns. *)
Inductive json :=
| JNull
| JBool (b : bool)
| JNum (z : Z)
| JStr (s : string)
| JArr (l : list json)
| JObj (m : gmap string json).

(** The two exception classes the handlers tell apart:
    [redis.exceptions.ConnectionError] and every other [Exception]. *)
Inductive exn := ConnectionError | OtherError.

Inductive result (A : Type) :=
| Return (a : A)
| Raise (e : exn).
Arguments Return {A} a.
Arguments Raise {A} e.

(** ** Rounding *)

(** [Series.round()] on the quotient [n / d] ([d > 0]): nearest integer,
    a tie going to the even neighbour (numpy's [rint]). *)
Definition round_half_even (n d : Z) : Z :=
  let q := n / d in
  let r := n mod d in
  if 2 * r <? d then q
  else if d <? 2 * r then q + 1
  else if Z.even q then q else q + 1.

(** ** Data frames *)

(** One row of the departures frame.  [source] is the cached JSON object
    the row was built from (the object columns); the three computed
    columns are typed: [scheduled_dt] and [actual_dt] are datetime
    columns ([None] is [NaT]), [delay_minutes] is the nullable [Int64]
    column ([None] is [pd.NA]).  A computed column shadows a source key
    of the same name. *)
Record Row := mkRow {
  source : gmap string json;
  scheduled_dt : option Z;
  actual_dt : option Z;
  delay_minutes : option Z
}.

Record DataFrame := mkDataFrame {
  columns : gset string;
  rows : list Row
}.

Module pd.

(** [pd.DataFrame()] *)
Definition empty_frame : DataFrame := mkDataFrame ∅ [].

(** [pd.DataFrame(list_of_dicts)]: one row per dict, the columns are
    the union of the keys. *)
Definition DataFrame_of (l : list (gmap string json)) : DataFrame :=
  mkDataFrame (⋃ (dom <$> l)) ((λ d, mkRow d None None None) <$> l).

(** [len(df)] *)
Definition len (df : DataFrame) : Z := Z.of_nat (length (rows df)).

(** [df.empty]: some axis has length zero. *)
Definition empty (df : DataFrame) : bool :=
  match rows df with
  | [] => true
  | _ :: _ => bool_decide (columns df = ∅)
  end.

(** A cell of an object column: a missing key and [None] are both NA. *)
Definition cell (r : Row) (col : string) : option json :=
  match source r !! col with
  | Some JNull | None => None
  | Some v => Some v
  end.

(** [df['scheduled_dt'] = f(df)] *)
Definition set_scheduled_dt (f : Row → option Z) (df : DataFrame) : DataFrame :=
  mkDataFrame ({["scheduled_dt"]} ∪ columns df)
    ((λ r, mkRow (source r) (f r) (actual_dt r) (delay_minutes r)) <$> rows df).

(** [df['actual_dt'] = f(df)] *)
Definition set_actual_dt (f : Row → option Z) (df : DataFrame) : DataFrame :=
  mkDataFrame ({["actual_dt"]} ∪ columns df)
    ((λ r, mkRow (source r) (scheduled_dt r) (f r) (delay_minutes r)) <$> rows df).

(** [df['delay_minutes'] = f(df)]; [pd.NA] is the constant [None]. *)
Definition set_delay_minutes (f : Row → option Z) (df : DataFrame) : DataFrame :=
  mkDataFrame ({["delay_minutes"]} ∪ columns df)
    ((λ r, mkRow (source r) (scheduled_dt r) (actual_dt r) (f r)) <$> rows df).

(** [df.dropna(subset=['scheduled_dt', 'actual_dt'])] *)
Definition dropna_dt (df : DataFrame) : DataFrame :=
  mkDataFrame (columns df)
    (filter (λ r, is_Some (scheduled_dt r) ∧ is_Some (actual_dt r)) (rows df)).

(** [df.drop(columns=['scheduled_dt', 'actual_dt'], errors='ignore')] *)
Definition drop_dt (df : DataFrame) : DataFrame :=
  mkDataFrame (columns df ∖ {["scheduled_dt"; "actual_dt"]})
    ((λ r, mkRow (source r) None None (delay_minutes r)) <$> rows df).

(** [df['delay_minutes']]: the column as a series. *)
Definition delay_series (df : DataFrame) : list (option Z) :=
  delay_minutes <$> rows df.

(** [series.dropna()] *)
Definition dropna (s : list (option Z)) : list Z := omap id s.

End pd.

(** ** Redis *)

(** A connection: the stored strings with their time to live in seconds,
    and a script of faults; each command consumes one entry of the
    script and raises when that entry names an exception. *)
Record Redis := mkRedis {
  db : gmap string (string * Z);
  faults : list (option exn)
}.

Definition redis_get (r : Redis) (key : string) : result (option string) :=
  match faults r with
  | Some e :: _ => Raise e
  | _ => Return (fst <$> db r !! key)
  end.

Definition redis_mget (r : Redis) (keys : list string) : result (list (option string)) :=
  match faults r with
  | Some e :: _ => Raise e
  | _ => Return ((λ k, fst <$> db r !! k) <$> keys)
  end.

(** [r.set(key, value, ex=ttl)]: the connection after the command, or
    the exception and the connection after it. *)
Definition redis_set (r : Redis) (key value : string) (ex : Z) : Redis * option exn :=
  match faults r with
  | Some e :: rest => (mkRedis (db r) rest, Some e)
  | _ => (mkRedis (<[key := (value, ex)]> (db r)) (tail (faults r)), None)
  end.

Definition redis_key (stop_id : string) : string := "departures:" +:+ stop_id.

(** ** Delay engine ([scripts/analysis_queries.py]) *)

Definition ON_TIME_THRESHOLD_MINUTES_LOW : Z := -1.
Definition ON_TIME_THRESHOLD_MINUTES_HIGH : Z := 3.

(** [bool(value)] for a decoded JSON value. *)
Definition truthy (value : json) : bool :=
  match value with
  | JNull => false
  | JBool b => b
  | JNum z => negb (z =? 0)
  | JStr s => negb (bool_decide (s = ""))
  | JArr l => negb (bool_decide (length l = 0%nat))
  | JObj m => negb (bool_decide (size m = 0%nat))
  end.

(** The objects of a list all of whose elements are objects. *)
Definition objects (l : list json) : option (list (gmap string json)) :=
  mapM (λ v, match v with JObj record => Some record | _ => None end) l.

Section DelayEngine.

(** [pd.to_datetime(value, errors='coerce', utc=True)] on one non-NA
    value: seconds since the epoch, [None] for [NaT].  A column is
    parsed cell by cell. *)
Variable to_datetime : json → option Z.

(** [json.loads]; [None] is [json.JSONDecodeError]. *)
Variable json_loads : string → option json.

(** [pd.DataFrame(data)] for [data] other than a list of objects (a
    scalar, an object, a list with an element that is not an object):
    the frame pandas makes of it, [None] when the constructor raises. *)
Variable irregular_frame : json → option DataFrame.

(** [pd.DataFrame(data)]: for a list of objects one row per object. *)
Definition DataFrame_from (data : json) : option DataFrame :=
  match data with
  | JArr l =>
      match objects l with
      | Some records => Some (pd.DataFrame_of records)
      | None => irregular_frame data
      end
  | _ => irregular_frame data
  end.

(** [pd.to_datetime(df[col], errors='coerce', utc=True)], row-wise. *)
Definition to_datetime_col (col : string) (r : Row) : option Z :=
  pd.cell r col ≫= to_datetime.

(** [(time_diff.dt.total_seconds() / 60).round().astype('Int64')] with
    [time_diff = df['actual_dt'] - df['scheduled_dt']], row-wise. *)
Definition delay_of_row (r : Row) : option Z :=
  match actual_dt r, scheduled_dt r with
  | Some a, Some s => Some (round_half_even (a - s) 60)
  | _, _ => None
  end.

(** The block "Calculate Delay", which the two readers below share
    word for word. *)
Definition calculate_delay (df : DataFrame) : DataFrame :=
  if decide ("scheduled_time" ∈ columns df ∧ "actual_time" ∈ columns df) then
    let df := pd.set_scheduled_dt (to_datetime_col "scheduled_time") df in
    let df := pd.set_actual_dt (to_datetime_col "actual_time") df in
    let df := pd.dropna_dt df in
    let df :=
      if negb (pd.empty df) then pd.set_delay_minutes delay_of_row df
      else pd.set_delay_minutes (λ _, None) df in
    pd.drop_dt df
  else pd.set_delay_minutes (λ _, None) df.

(** The loop over [data_strings] filling [all_departures_list]: an
    absent or empty string, a decode error and a value that is not a
    list are skipped; the elements of a list are taken as they are. *)
Fixpoint collect_departures (data_strings : list (option string)) : list json :=
  match data_strings with
  | [] => []
  | data_string :: rest =>
      match data_string with
      | Some s =>
          if decide (s = "") then collect_departures rest
          else match json_loads s with
               | Some (JArr departures) => departures ++ collect_departures rest
               | Some _ | None => collect_departures rest
               end
      | None => collect_departures rest
      end
  end.

(** [df = pd.DataFrame(data)] followed by the delay block.  An
    exception of the constructor reaches the handler for [Exception]
    with the frame still empty (the single-stop reader has not assigned
    it yet, the regional reader resets it). *)
Definition frame_with_delays (data : json) : DataFrame :=
  match DataFrame_from data with
  | Some df => calculate_delay df
  | None => pd.empty_frame
  end.

(** The frame built from [all_departures_list]. *)
Definition combined_frame (all_departures_list : list json) : DataFrame :=
  match all_departures_list with
  | [] => pd.empty_frame
  | _ :: _ => frame_with_delays (JArr all_departures_list)
  end.

(** The frame built from a list of records: [combined_frame] on a list
    of objects. *)
Definition regional_frame (all_departures_list : list (gmap string json)) : DataFrame :=
  match all_departures_list with
  | [] => pd.empty_frame
  | _ :: _ => calculate_delay (pd.DataFrame_of all_departures_list)
  end.

Definition get_regional_departures_df (redis_conn : option Redis)
    (region_stop_ids : list string) : result DataFrame :=
  match redis_conn with
  | None => Return pd.empty_frame
  | Some r =>
      match region_stop_ids with
      | [] => Return pd.empty_frame
      | _ :: _ =>
          let redis_keys := redis_key <$> region_stop_ids in
          match redis_mget r redis_keys with
          | Raise ConnectionError => Raise ConnectionError
          | Raise OtherError => Return pd.empty_frame
          | Return data_strings => Return (combined_frame (collect_departures data_strings))
          end
      end
  end.

(** There is no [isinstance] check here: whatever truthy value the
    string decodes to goes to the [DataFrame] constructor. *)
Definition get_live_departures_for_stop (redis_conn : option Redis)
    (stop_id : string) : result DataFrame :=
  match redis_conn with
  | None => Return pd.empty_frame
  | Some r =>
      match redis_get r (redis_key stop_id) with
      | Raise ConnectionError => Raise ConnectionError
      | Raise OtherError => Return pd.empty_frame
      | Return None => Return pd.empty_frame
      | Return (Some data_string) =>
          if decide (data_string = "") then Return pd.empty_frame
          else match json_loads data_string with
               | Some departures_list =>
                   if truthy departures_list
                   then Return (frame_with_delays departures_list)
                   else Return pd.empty_frame
               | None => Return pd.empty_frame
               end
      end
  end.

End DelayEngine.

(** ** KPIs and bucket distribution ([scripts/analysis_queries.py]) *)

(** The values a KPI dictionary holds. *)
Inductive value :=
| VNone
| VInt (z : Z)
| VFloat (q : Q).

(** [Series.mean()] *)
Definition mean (s : list Z) : Q :=
  Qdiv (inject_Z (foldr Z.add 0 s)) (inject_Z (Z.of_nat (length s))).

(** [valid_delays[(valid_delays >= LOW) & (valid_delays <= HIGH)]] *)
Definition on_time (valid_delays : list Z) : list Z :=
  filter (λ d, ON_TIME_THRESHOLD_MINUTES_LOW ≤ d ∧ d ≤ ON_TIME_THRESHOLD_MINUTES_HIGH)
    valid_delays.

(** The function receives a reference to the caller's frame; the second
    component is that frame as it is when the function returns. *)
Definition calculate_regional_kpis (departures_df : DataFrame)
    : gmap string value * DataFrame :=
  let kpis : gmap string value :=
    {[ "avg_delay" := VNone;
       "on_time_percent" := VNone;
       "total_departures" := VInt (pd.len departures_df);
       "valid_delay_count" := VInt 0 ]} in
  if pd.empty departures_df || negb (bool_decide ("delay_minutes" ∈ columns departures_df))
  then (kpis, departures_df)
  else
    let valid_delays := pd.dropna (pd.delay_series departures_df) in
    let valid_delay_count := Z.of_nat (length valid_delays) in
    let kpis := <["valid_delay_count" := VInt valid_delay_count]> kpis in
    match valid_delays with
    | [] => (kpis, departures_df)
    | _ :: _ =>
        let kpis := <["avg_delay" := VFloat (mean valid_delays)]> kpis in
        let on_time_count := Z.of_nat (length (on_time valid_delays)) in
        let kpis :=
          <["on_time_percent" :=
              VFloat (inject_Z on_time_count / inject_Z valid_delay_count * 100)%Q]> kpis in
        (kpis, departures_df)
    end.

(** A bin edge of [pd.cut]: [-float('inf')], a number, [float('inf')]. *)
Inductive edge := NegInf | Fin (z : Z) | PosInf.

Definition DELAY_BUCKET_LABELS : list string :=
  [ "< " +:+ pretty ON_TIME_THRESHOLD_MINUTES_LOW +:+ "m (Early)";
    pretty ON_TIME_THRESHOLD_MINUTES_LOW +:+ "m to +"
      +:+ pretty ON_TIME_THRESHOLD_MINUTES_HIGH +:+ "m (On Time)";
    "+" +:+ pretty (ON_TIME_THRESHOLD_MINUTES_HIGH + 1) +:+ "m to +10m (Late)";
    "> +10m (Very Late)" ].

Definition DELAY_BUCKET_BINS : list edge :=
  [ NegInf; Fin (ON_TIME_THRESHOLD_MINUTES_LOW - 1);
    Fin ON_TIME_THRESHOLD_MINUTES_HIGH; Fin 10; PosInf ].

(** [e < x] and [x <= e] for an edge [e]. *)
Definition edge_below (e : edge) (x : Z) : bool :=
  match e with NegInf => true | Fin z => z <? x | PosInf => false end.

Definition edge_reaches (e : edge) (x : Z) : bool :=
  match e with NegInf => false | Fin z => x <=? z | PosInf => true end.

(** [pd.cut(x, bins, labels, right=True)] on one value: the label of the
    interval [(lo, hi]] that holds [x], NaN ([None]) outside the bins. *)
Fixpoint cut (bins : list edge) (labels : list string) (x : Z) : option string :=
  match bins, labels with
  | lo :: (hi :: _) as bins', label :: labels' =>
      if edge_below lo x && edge_reaches hi x then Some label
      else cut bins' labels' x
  | _, _ => None
  end.

(** [categorical.value_counts()]: every category with its count. *)
Definition value_counts (categories : list string) (s : list (option string))
    : list (string * Z) :=
  (λ c, (c, Z.of_nat (length (filter (λ x, x = Some c) s)))) <$> categories.

(** Label-aligned read of a series, NaN ([None]) for a missing label. *)
Fixpoint series_at (s : list (string * Z)) (label : string) : option Z :=
  match s with
  | [] => None
  | (l, c) :: s' => if decide (l = label) then Some c else series_at s' label
  end.

(** The result frame: its rows [(category, count)] in order. *)
Definition get_regional_delay_distribution (departures_df : DataFrame)
    : list (string * Z) :=
  let dist_df := (λ label, (label, 0)) <$> DELAY_BUCKET_LABELS in
  if pd.empty departures_df || negb (bool_decide ("delay_minutes" ∈ columns departures_df))
  then dist_df
  else
    let valid_delays := pd.dropna (pd.delay_series departures_df) in
    match valid_delays with
    | [] => dist_df
    | _ :: _ =>
        let delay_categories :=
          cut DELAY_BUCKET_BINS DELAY_BUCKET_LABELS <$> valid_delays in
        let delay_counts := value_counts DELAY_BUCKET_LABELS delay_categories in
        (λ row, (row.1, default 0 (series_at delay_counts row.1))) <$> dist_df
    end.

(** The delays a frame defines: the non-NA entries of its
    [delay_minutes] column, none when the frame has no such column. *)
Definition defined_delays (df : DataFrame) : list Z :=
  if decide ("delay_minutes" ∈ columns df) then pd.dropna (pd.delay_series df) else [].

(** ** Departure fetcher ([vag_api_client.py]) *)

Definition api_base_url : string := "https://start.vag.de/dm/api/v1".

(** [s.split(sep)] for a one-character separator. *)
Fixpoint split (sep : ascii) (s : string) : list string :=
  match s with
  | EmptyString => [EmptyString]
  | String c s' =>
      if decide (c = sep) then EmptyString :: split sep s'
      else match split sep s' with
           | part :: parts => String c part :: parts
           | [] => [String c EmptyString]
           end
  end.

(** The GTFS-id conversion at the head of the function; the [except]
    branch of the source keeps the original id. *)
Definition numeric_stop_id (stop_id : string) : string :=
  if String.prefix "de:" stop_id then
    let parts := split ":"%char stop_id in
    if decide (4 ≤ length parts)%nat then default stop_id (parts !! 2%nat)
    else stop_id
  else stop_id.

Definition api_url (stop_id : string) : string :=
  api_base_url +:+ "/abfahrten/VGN/" +:+ numeric_stop_id stop_id.

(** What the three calls [requests.get(url, timeout=10)],
    [raise_for_status()] and [response.json()] come to. *)
Inductive response :=
| TimedOut
| BadStatus (status_code : Z)
| NetworkFailure
| MalformedJSON
| Body (raw_data : json).

(** The exceptions the [try] block can end in, one per handler. *)
Inductive fetch_exn :=
| Timeout
| HTTPError
| RequestException
| JSONDecodeError
| Unexpected.

(** [d.get(key)] on a parsed object: [None] when the key is missing. *)
Definition dict_get (d : gmap string json) (key : string) : json :=
  default JNull (d !! key).

(** The body of the [for] loop; [departure.get] on anything but a dict
    is an [AttributeError]. *)
Definition simplified_departure (departure : json) : fetch_exn + gmap string json :=
  match departure with
  | JObj d =>
      inr {[ "line" := dict_get d "Linienname";
             "destination" := dict_get d "Richtungstext";
             "scheduled_time" := dict_get d "AbfahrtszeitSoll";
             "actual_time" := dict_get d "AbfahrtszeitIst";
             "platform" := dict_get d "HaltesteigText" ]}
  | _ => inl Unexpected
  end.

Fixpoint parse_departures (raw_departures : list json)
    : fetch_exn + list (gmap string json) :=
  match raw_departures with
  | [] => inr []
  | departure :: rest =>
      match simplified_departure departure with
      | inl e => inl e
      | inr simplified =>
          match parse_departures rest with
          | inl e => inl e
          | inr parsed => inr (simplified :: parsed)
          end
      end
  end.

(** The [try] block.  Iterating a non-list: a string yields its
    characters and a dict its keys, on which [.get] fails, so only the
    empty ones pass; [None], numbers and booleans are not iterable. *)
Definition try_fetch (resp : response) : fetch_exn + list (gmap string json) :=
  match resp with
  | TimedOut => inl Timeout
  | BadStatus _ => inl HTTPError
  | NetworkFailure => inl RequestException
  | MalformedJSON => inl JSONDecodeError
  | Body (JObj raw_data) =>
      match default (JArr []) (raw_data !! "Abfahrten") with
      | JArr raw_departures => parse_departures raw_departures
      | JStr s => if decide (s = EmptyString) then inr [] else inl Unexpected
      | JObj m => if decide (m = ∅) then inr [] else inl Unexpected
      | JNull | JBool _ | JNum _ => inl Unexpected
      end
  | Body _ => inl Unexpected
  end.

Section Fetcher.

(** The API as the process sees it: the outcome of a GET on a URL. *)
Variable requests_get : string → response.

Definition fetch_and_parse_departures (stop_id : string)
    : option (list (gmap string json)) :=
  match try_fetch (requests_get (api_url stop_id)) with
  | inr parsed_departures => Some parsed_departures
  | inl Timeout => None
  | inl HTTPError => None
  | inl RequestException => None
  | inl JSONDecodeError => None
  | inl Unexpected => None
  end.

End Fetcher.

(** ** Polling cycle and cache writer ([data_fetcher.py]) *)

(** What a cycle leaves behind: the connection ([None] once it is found
    dead), the two counters, and the stops the API was asked for, in
    order. *)
Record cycle := mkCycle {
  redis_connection : option Redis;
  successful_fetches : Z;
  total_departures_stored : Z;
  fetched : list string
}.

Definition priority_stops : list string := ["510"; "546"; "3151"].

(** [ordered_stops[:50]] *)
Definition stops_to_fetch (stop_ids : list string) : list string :=
  let remaining_stops := filter (λ s, s ∉ priority_stops) stop_ids in
  let ordered_stops := priority_stops ++ remaining_stops in
  take 50 ordered_stops.

Section Polling.

Variable requests_get : string → response.

(** [json.dumps] *)
Variable json_dumps : list (gmap string json) → string.

(** [int(os.getenv('FETCH_INTERVAL', '60'))] *)
Variable FETCH_INTERVAL_SECONDS : Z.

(** What [get_redis_conn()] returns when the job asks to reconnect. *)
Variable get_redis_conn : option Redis.

Definition REDIS_EXPIRY : Z := FETCH_INTERVAL_SECONDS + 30.

(** The [for stop_id in stops_to_fetch] loop. *)
Fixpoint fetch_loop (stops : list string) (r : Redis)
    (successful total : Z) (asked : list string) : cycle :=
  match stops with
  | [] => mkCycle (Some r) successful total asked
  | stop_id :: rest =>
      let asked := asked ++ [stop_id] in
      match fetch_and_parse_departures requests_get stop_id with
      | Some ((_ :: _) as departures_data) =>
          let json_data := json_dumps departures_data in
          match redis_set r (redis_key stop_id) json_data REDIS_EXPIRY with
          | (r', None) =>
              fetch_loop rest r' (successful + 1)
                (total + Z.of_nat (length departures_data)) asked
          | (r', Some ConnectionError) => mkCycle None successful total asked
          | (r', Some OtherError) => fetch_loop rest r' successful total asked
          end
      | Some [] | None => fetch_loop rest r successful total asked
      end
  end.

Definition fetch_nuremberg_stops_job (stop_ids : list string)
    (redis_connection : option Redis) : cycle :=
  match stop_ids with
  | [] => mkCycle redis_connection 0 0 []
  | _ :: _ =>
      let redis_connection :=
        match redis_connection with
        | Some r => Some r
        | None => get_redis_conn
        end in
      match redis_connection with
      | None => mkCycle None 0 0 []
      | Some r => fetch_loop (stops_to_fetch stop_ids) r 0 0 []
      end
  end.

End Polling.

(** ** Static query layer ([scripts/analysis_queries.py]) *)

(** Running one statement on a connection of the engine: an exception
    (connecting or executing), or the rows. *)
Inductive query (A : Type) :=
| Failed
| Fetched (a : A).
Arguments Failed {A}.
Arguments Fetched {A} a.

(** The schedule database as the fixed statements see it.  The counts
    are what [scalar_one_or_none()] gives. *)
Record Engine := mkEngine {
  count_routes : query (option Z);
  count_stops : query (option Z);
  count_trips : query (option Z);
  route_type_rows : query (list (Z * Z));
  top_route_rows : Z → query (list (option string * option string * Z));
  stop_location_rows : query (list (string * option string * Q * Q));
  stop_list_rows : query (list (string * option string));
  stops_like : string → query (list string)
}.

(** A value of the overview dictionary: the text ['N/A'] or a count. *)
Inductive stat := NotAvailable | Count (n : Z).

Definition ROUTE_TYPE_MAP : gmap Z string :=
  list_to_map
    [ (0, "Tram"); (1, "Subway (U-Bahn)"); (2, "Rail (S-Bahn/Regional)");
      (3, "Bus"); (4, "Ferry"); (5, "Cable Tram"); (6, "Aerial Lift");
      (7, "Funicular"); (11, "Trolleybus"); (12, "Monorail") ].

Definition get_overview_stats (engine : option Engine) : gmap string stat :=
  let stats : gmap string stat :=
    {[ "total_routes" := NotAvailable;
       "total_stops" := NotAvailable;
       "total_trips" := NotAvailable ]} in
  match engine with
  | None => stats
  | Some e =>
      match count_routes e with
      | Failed => stats
      | Fetched n =>
          let stats := <["total_routes" := Count (default 0 n)]> stats in
          match count_stops e with
          | Failed => stats
          | Fetched n =>
              let stats := <["total_stops" := Count (default 0 n)]> stats in
              match count_trips e with
              | Failed => stats
              | Fetched n => <["total_trips" := Count (default 0 n)]> stats
              end
          end
      end
  end.

(** [df['route_type'].map(ROUTE_TYPE_MAP).fillna('Other/' + str)] *)
Definition route_type_name (route_type : Z) : string :=
  default ("Other/" +:+ pretty route_type) (ROUTE_TYPE_MAP !! route_type).

Definition get_route_type_counts (engine : option Engine) : list (string * Z) :=
  let empty_df : list (string * Z) := [] in
  match engine with
  | None => empty_df
  | Some e =>
      match route_type_rows e with
      | Fetched df => (λ row, (route_type_name row.1, row.2)) <$> df
      | Failed => empty_df
      end
  end.

Definition is_space (c : ascii) : bool :=
  bool_decide (c ∈ [" "; "009"; "010"; "011"; "012"; "013"]%char).

Fixpoint lstrip (s : string) : string :=
  match s with
  | String c s' => if is_space c then lstrip s' else s
  | EmptyString => EmptyString
  end.

(** [s.strip()] *)
Definition strip (s : string) : string :=
  String.rev (lstrip (String.rev (lstrip s))).

(** The two assignments to [df['route_display_name']]; [Series.replace]
    replaces whole values. *)
Definition route_display_name (short long : option string) : string :=
  let name := strip (default "" short +:+ " (" +:+ default "" long +:+ ")") in
  let name := if decide (name = "()") then "" else name in
  if decide (name = "( )") then "" else name.

Definition get_top_routes_by_trips (engine : option Engine) (top_n : Z)
    : list (string * Z) :=
  let empty_df : list (string * Z) := [] in
  match engine with
  | None => empty_df
  | Some e =>
      match top_route_rows e top_n with
      | Fetched df => (λ row, (route_display_name row.1.1 row.1.2, row.2)) <$> df
      | Failed => empty_df
      end
  end.

Definition get_all_stops_locations (engine : option Engine)
    : list (string * option string * Q * Q) :=
  match engine with
  | None => []
  | Some e =>
      match stop_location_rows e with
      | Fetched df => df
      | Failed => []
      end
  end.

Definition get_stop_list (engine : option Engine) : list (string * option string) :=
  match engine with
  | None => []
  | Some e =>
      match stop_list_rows e with
      | Fetched df => df
      | Failed => []
      end
  end.

Definition prefix_map : gmap string string :=
  {[ "Nuremberg" := "de:09564:%";
     "Fürth" := "de:09563:%";
     "Erlangen" := "de:09562:%" ]}.

Definition get_stops_by_region (engine : option Engine) (region_name : string)
    : list string :=
  match engine with
  | None => []
  | Some e =>
      match prefix_map !! region_name with
      | None => []
      | Some search_pattern =>
          let stop_ids :=
            match stops_like e search_pattern with
            | Fetched result => result
            | Failed => []
            end in
          if decide (region_name = "Nuremberg") then
            let numeric_stop_ids := ["510"; "546"; "3151"] in
            stop_ids ++ numeric_stop_ids
          else stop_ids
      end
  end.

(** ** Vocabulary of the properties *)

(** The timestamp a cached record carries in field [col]: what the
    reader's [to_datetime] makes of that cell of its row. *)
Definition timestamp (to_datetime : json → option Z)
    (record : gmap string json) (col : string) : option Z :=
  to_datetime_col to_datetime col (mkRow record None None None).

(** A record both of whose timestamps parse. *)
Definition parseable (to_datetime : json → option Z)
    (record : gmap string json) : Prop :=
  is_Some (timestamp to_datetime record "scheduled_time")
  ∧ is_Some (timestamp to_datetime record "actual_time").

(** A stand-in for [pd.to_datetime] in the examples: a number is read as
    seconds since the epoch, anything else does not parse. *)
Definition epoch_seconds (v : json) : option Z :=
  match v with
  | JNum z => Some z
  | _ => None
  end.

(** A cached departure record with the given two time cells. *)
Definition departure (scheduled actual : json) : gmap string json :=
  {[ "line" := JStr "U1";
     "destination" := JStr "Fuerth Hardhoehe";
     "scheduled_time" := scheduled;
     "actual_time" := actual;
     "platform" := JNull ]}.

(** The row the delay block makes of a row: dropped unless its two
    times parse, else annotated with the rounded difference. *)
Definition annotate (to_datetime : json → option Z) (r : Row) : option Row :=
  match to_datetime_col to_datetime "actual_time" r,
        to_datetime_col to_datetime "scheduled_time" r with
  | Some a, Some s =>
      Some (mkRow (source r) None None (Some (round_half_even (a - s) 60)))
  | _, _ => None
  end.

(** The two [to_datetime] assignments of the delay block, as one row
    transformer. *)
Definition with_times (to_datetime : json → option Z) (r : Row) : Row :=
  mkRow (source r) (to_datetime_col to_datetime "scheduled_time" r)
    (to_datetime_col to_datetime "actual_time" r) (delay_minutes r).

(** The dictionary [calculate_regional_kpis] starts from. *)
Definition initial_kpis (departures_df : DataFrame) : gmap string value :=
  {[ "avg_delay" := VNone;
     "on_time_percent" := VNone;
     "total_departures" := VInt (pd.len departures_df);
     "valid_delay_count" := VInt 0 ]}.

(** The delay of a cached record as the specification words it: the
    rounded difference when both timestamps parse, undefined else. *)
Definition record_delay (to_datetime : json → option Z)
    (record : gmap string json) : option Z :=
  match timestamp to_datetime record "actual_time",
        timestamp to_datetime record "scheduled_time" with
  | Some a, Some s => Some (round_half_even (a - s) 60)
  | _, _ => None
  end.

(** Two cached records, 90 and 30 seconds behind schedule. *)
Definition two_departures : list (gmap string json) :=
  [ departure (JNum 0) (JNum 90); departure (JNum 0) (JNum 30) ].

(** Two cached records, the second without a real-time estimate. *)
Definition one_unparseable : list (gmap string json) :=
  [ departure (JNum 0) (JNum 90); departure (JNum 0) JNull ].

(** The compound, schema-qualified form of a stop id: at least four
    colon-separated parts, the first being the authority prefix. *)
Definition compound_form (stop_id : string) : Prop :=
  ∃ rest, split ":" stop_id = "de" :: rest ∧ (3 ≤ length rest)%nat.

(** Internal field name and raw API field name, pairwise. *)
Definition FIELDS : list (string * string) :=
  [ ("line", "Linienname"); ("destination", "Richtungstext");
    ("scheduled_time", "AbfahrtszeitSoll"); ("actual_time", "AbfahrtszeitIst");
    ("platform", "HaltesteigText") ].

(** An API that answers every request with one raw departure that has
    a line name and nothing else. *)
Definition sparse_api (url : string) : response :=
  Body (JObj {[ "Abfahrten" := JArr [ JObj {[ "Linienname" := JStr "U1" ]} ] ]}).

(** An API that answers every request with an object without the
    departures field. *)
Definition silent_api (url : string) : response := Body (JObj ∅).

(** ** The stop list of [main] ([data_fetcher.py]) *)

Definition REGION_NAME : string := "Nuremberg".

Definition fallback_ids : list string :=
  ["546"; "510"; "511"; "512"; "513"; "514"; "515"].

(** [set(nuremberg_stop_ids + fallback_ids)] for a connected engine. *)
Definition monitored_stops (engine : Engine) : gset string :=
  list_to_set (get_stops_by_region (Some engine) REGION_NAME ++ fallback_ids).

(** [l] is [list(X)] for the set [X]: its elements, each once, in the
    order the interpreter happens to iterate the set. *)
Definition list_of_set (l : list string) (X : gset string) : Prop :=
  NoDup l ∧ ∀ s, s ∈ l ↔ s ∈ X.

(** The cache after a cycle: what is stored under [key], if the
    connection is still held. *)
Definition cached (c : cycle) (key : string) : option (string * Z) :=
  redis_connection c ≫= λ r, db r !! key.

(** A healthy connection to an empty store. *)
Definition fresh_redis : Redis := mkRedis ∅ [].

(** A stand-in for [json.dumps] in the examples: the number of records. *)
Definition count_dumps (departures : list (gmap string json)) : string :=
  pretty (length departures).

(** ** Engines for the examples *)

(** A connected engine on which every statement fails. *)
Definition failing_engine : Engine :=
  mkEngine Failed Failed Failed Failed (λ _, Failed) Failed Failed (λ _, Failed).

(** A connected engine over empty tables. *)
Definition empty_engine : Engine :=
  mkEngine (Fetched (Some 0)) (Fetched (Some 0)) (Fetched (Some 0))
    (Fetched []) (λ _, Fetched []) (Fetched []) (Fetched []) (λ _, Fetched []).

(** A connected engine that knows one Nuremberg platform. *)
Definition one_stop_engine : Engine :=
  mkEngine (Fetched (Some 1)) (Fetched (Some 1)) (Fetched (Some 0))
    (Fetched [(1, 1)]) (λ _, Fetched []) (Fetched []) (Fetched [])
    (λ _, Fetched ["de:09564:704:11:1"]).

(** The overview dictionary with every count still ['N/A']. *)
Definition placeholder_stats : gmap string stat :=
  {[ "total_routes" := NotAvailable;
     "total_stops" := NotAvailable;
     "total_trips" := NotAvailable ]}.

(** A statement that failed or gave no rows. *)
Definition fruitless {A} (q : query (list A)) : Prop :=
  q = Failed ∨ q = Fetched [].

(** ** Further values for the examples *)

(** A cache holding one payload, for stop 510. *)
Definition sample_cache : Redis :=
  mkRedis {[ redis_key "510" := ("payload", 90) ]} [].

(** A stand-in for [json.loads]: every string decodes to the two
    departures above. *)
Definition sample_loads (data_string : string) : option json :=
  Some (JArr (JObj <$> two_departures)).

(** A stand-in for [json.loads]: every string decodes to the two
    records of which the second has no real-time estimate. *)
Definition unparseable_loads (data_string : string) : option json :=
  Some (JArr (JObj <$> one_unparseable)).

(** A [DataFrame] constructor that raises on everything but a list of
    objects. *)
Definition strict_frame (data : json) : option DataFrame := None.

(** An API on which every request times out. *)
Definition timing_out_api (url : string) : response := TimedOut.

(** One way to list the stops monitored over [one_stop_engine]. *)
Definition sample_stop_ids : list string :=
  [ "515"; "de:09564:704:11:1"; "546"; "510"; "3151"; "511"; "512"; "513"; "514" ].


(** ** Dashboard helpers ([nuremberg_dashboard.py]) *)

(** The wrapper around [calculate_regional_kpis]: an empty frame gets
    the all-zero dictionary without calling it. *)
Definition compute_regional_kpis (regional_df : DataFrame) : gmap string value :=
  if pd.empty regional_df then
    {[ "avg_delay" := VNone;
       "on_time_percent" := VNone;
       "total_departures" := VInt 0;
       "valid_delay_count" := VInt 0 ]}
  else (calculate_regional_kpis regional_df).1.

(** The wrapper around [get_regional_delay_distribution]: an empty
    frame gets [pd.DataFrame()], a frame without rows. *)
Definition compute_regional_distribution (regional_df : DataFrame)
    : list (string * Z) :=
  if pd.empty regional_df then [] else get_regional_delay_distribution regional_df.

(** [regional_kpis.get(key, 0)] for the two counts. *)
Definition kpi_count (regional_kpis : gmap string value) (key : string) : Z :=
  match regional_kpis !! key with
  | Some (VInt n) => n
  | _ => 0
  end.

(** The delta of the "Data Coverage" metric:
    [valid_count / total_count * 100], ["N/A"] ([None]) when
    [total_count] is not positive. *)
Definition coverage_delta (regional_kpis : gmap string value) : option Q :=
  let valid_count := kpi_count regional_kpis "valid_delay_count" in
  let total_count := kpi_count regional_kpis "total_departures" in
  if 0 <? total_count
  then Some (Qmult (Qdiv (inject_Z valid_count) (inject_Z total_count)) 100)
  else None.

(** ** The end of a polling cycle ([data_fetcher.py]) *)

(** The two CRITICAL messages a cycle can end with. *)
Inductive alarm :=
| NoDataFetched
| NoDeparturesFound.

(** The [if successful_fetches == 0 ... elif total_departures_stored == 0]
    at the end of the job. *)
Definition final_alarm (c : cycle) : option alarm :=
  if decide (successful_fetches c = 0) then Some NoDataFetched
  else if decide (total_departures_stored c = 0) then Some NoDeparturesFound
  else None.

(** ** Engine creation ([scripts/db_utils.py]) *)

Module db_utils.

(** The exceptions [get_engine] raises. *)
Inductive error :=
| KeyError (name : string)
| ConnectionError
| ValueError.

End db_utils.

(** [f'postgresql+psycopg2://{user}:{password}@{host}:{port}/{dbname}'] *)
Definition connection_str (user password host port dbname : string) : string :=
  "postgresql+psycopg2://" +:+ user +:+ ":" +:+ password +:+ "@" +:+ host
    +:+ ":" +:+ port +:+ "/" +:+ dbname.

(** [environ] is [os.environ]; [connect] stands for [db.create_engine]
    followed by the test connection, [None] when either raises. *)
Definition get_engine (environ : gmap string string)
    (connect : string → option Engine) : db_utils.error + Engine :=
  let db_type := default "postgresql" (environ !! "DB_TYPE") in
  if decide (db_type = "postgresql") then
    match environ !! "PG_USER" with
    | None => inl (db_utils.KeyError "PG_USER")
    | Some user =>
    match environ !! "PG_PASS" with
    | None => inl (db_utils.KeyError "PG_PASS")
    | Some password =>
    match environ !! "PG_HOST" with
    | None => inl (db_utils.KeyError "PG_HOST")
    | Some host =>
    match environ !! "PG_PORT" with
    | None => inl (db_utils.KeyError "PG_PORT")
    | Some port =>
    match environ !! "PG_DBNAME" with
    | None => inl (db_utils.KeyError "PG_DBNAME")
    | Some dbname =>
        match connect (connection_str user password host port dbname) with
        | Some engine => inr engine
        | None => inl db_utils.ConnectionError
        end
    end end end end end
  else inl db_utils.ValueError.

(** ** Start-up of the fetcher ([data_fetcher.py], [main]) *)

(** Why [main] ended before the scheduler: an exception of [get_engine]
    that nothing catches, or one of the three CRITICAL messages
    followed by [exit(1)]. *)
Inductive ending :=
| Uncaught (e : db_utils.error)
| NoDatabase
| NoRedis
| NoStopIds.

(** How the script gets to the scheduler, or fails to: the process
    ends with an exit status (1 for an uncaught exception, the argument
    of [exit] otherwise), or the job is scheduled on the set of stops
    and the connection. *)
Inductive startup :=
| Terminated (status : Z) (why : ending)
| Scheduled (stops : gset string) (redis_conn : Redis).

(** [main], run as a script, up to [scheduler.add_job].  [get_engine]
    returns an engine object or raises; [db_engine] is [None] when it
    returned a falsy value. *)
Definition main (environ : gmap string string) (connect : string → option Engine)
    (get_redis_conn : option Redis) : startup :=
  match get_engine environ connect with
  | inl e => Terminated 1 (Uncaught e)
  | inr engine =>
      let db_engine := Some engine in
      match db_engine with
      | None => Terminated 1 NoDatabase
      | Some _ =>
          match get_redis_conn with
          | None => Terminated 1 NoRedis
          | Some redis_conn =>
              let nuremberg_stop_ids := get_stops_by_region db_engine REGION_NAME in
              match nuremberg_stop_ids with
              | [] => Terminated 1 NoStopIds
              | _ :: _ =>
                  Scheduled (list_to_set (nuremberg_stop_ids ++ fallback_ids)) redis_conn
              end
          end
      end
  end.

(** ** More values for the examples *)

(** A complete environment for [get_engine]. *)
Definition sample_environ : gmap string string :=
  {[ "PG_USER" := "vgn"; "PG_PASS" := "secret"; "PG_HOST" := "localhost";
     "PG_PORT" := "5432"; "PG_DBNAME" := "gtfs" ]}.

(** A database server that accepts every connection string. *)
Definition open_server (connection : string) : option Engine := Some one_stop_engine.

(** A connection whose second command raises an error other than a
    connection error. *)
Definition flaky_redis : Redis := mkRedis ∅ [None; Some OtherError].

(** A connection whose first command raises a connection error. *)
Definition dead_redis : Redis := mkRedis ∅ [Some ConnectionError].

(** A stand-in for [json.loads]: every string decodes to what the
    sparse API delivers for stop 510. *)
Definition sparse_loads (data_string : string) : option json :=
  (λ departures, JArr (JObj <$> departures))
    <$> fetch_and_parse_departures sparse_api "510".

(** The frame a reader call yields, the empty frame when it raises. *)
Definition frame_or_empty (res : result DataFrame) : DataFrame :=
  match res with
  | Return df => df
  | Raise _ => pd.empty_frame
  end.

(** What a write of a cycle to [key] looks like: the entry is the
    serialized non-empty departure list of a stop among [stops] whose
    key it is, with the expiry of the interval plus 30 seconds. *)
Definition written (api : string → response)
    (json_dumps : list (gmap string json) → string) (interval : Z)
    (stops : list string) (key : string) (entry : option (string * Z)) : Prop :=
  ∃ stop departures,
    stop ∈ stops ∧ key = redis_key stop
    ∧ fetch_and_parse_departures api stop = Some departures
    ∧ departures ≠ []
    ∧ entry = Some (json_dumps departures, interval + 30).

(** The records cached for a stop: the objects of the list its string
    decodes to, none when there is no such list. *)
Definition cached_records (json_loads : string → option json) (r : Redis)
    (stop_id : string) : list (gmap string json) :=
  match db r !! redis_key stop_id with
  | Some (data_string, _) =>
      if decide (data_string = "") then []
      else match json_loads data_string with
           | Some (JArr departures) => default [] (objects departures)
           | _ => []
           end
  | None => []
  end.

(** The cache holds lists of records, as the fetcher writes them: a
    string under the key of one of the stops that decodes at all
    decodes to a list of objects. *)
Definition holds_record_lists (json_loads : string → option json) (r : Redis)
    (stop_ids : list string) : Prop :=
  ∀ stop_id data_string expiry value,
    stop_id ∈ stop_ids →
    db r !! redis_key stop_id = Some (data_string, expiry) →
    json_loads data_string = Some value →
    ∃ records, value = JArr (JObj <$> records).

(** * Properties *)

(** ** Rounding *)

Lemma round_half_even_nearest (n : Z) :
  60 * round_half_even n 60 - 30 ≤ n ≤ 60 * round_half_even n 60 + 30.
Proof.
  unfold round_half_even.
  pose proof (Z.div_mod n 60 ltac:(lia)) as Hdm.
  pose proof (Z.mod_pos_bound n 60 ltac:(lia)) as Hb.
  repeat case_match; lia.
Qed.

Example round_90s : round_half_even 90 60 = 2.
Proof. reflexivity. Qed.

Example round_30s : round_half_even 30 60 = 0.
Proof. reflexivity. Qed.

Example round_150s : round_half_even 150 60 = 2.
Proof. reflexivity. Qed.

Example round_early_90s : round_half_even (-90) 60 = -2.
Proof. reflexivity. Qed.

Example round_early_31s : round_half_even (-31) 60 = -1.
Proof. reflexivity. Qed.

(** ** Delay computation *)

Section DelayFacts.

Variable to_datetime : json → option Z.
Variable json_loads : string → option json.
Variable irregular_frame : json → option DataFrame.

Lemma objects_records (records : list (gmap string json)) :
  objects (JObj <$> records) = Some records.
Proof.
  unfold objects. induction records as [|record records IH]; [done|].
  cbn. cbn in IH. by rewrite IH.
Qed.

Lemma combined_frame_records (records : list (gmap string json)) :
  combined_frame to_datetime irregular_frame (JObj <$> records)
  = regional_frame to_datetime records.
Proof.
  destruct records as [|record records]; [done|].
  unfold combined_frame, frame_with_delays, DataFrame_from.
  rewrite fmap_cons, <- fmap_cons, objects_records. done.
Qed.

Lemma dropna_then_delay (rs : list Row) :
  (λ r, mkRow (source r) None None (delay_of_row r))
    <$> filter (λ r, is_Some (scheduled_dt r) ∧ is_Some (actual_dt r))
          (with_times to_datetime <$> rs)
  = omap (annotate to_datetime) rs.
Proof.
  induction rs as [|r rs IH]; [done|].
  rewrite fmap_cons, filter_cons.
  cbn [omap list_omap]. unfold annotate at 1.
  destruct (decide _) as [[[s Hs] [a Ha]]|Hno].
  - cbn in Hs, Ha. rewrite Hs, Ha. rewrite fmap_cons.
    unfold delay_of_row at 1. cbn [actual_dt scheduled_dt with_times source].
    rewrite Hs, Ha. by rewrite IH.
  - cbn in Hno. rewrite IH.
    destruct (to_datetime_col to_datetime "actual_time" r) eqn:Ea,
             (to_datetime_col to_datetime "scheduled_time" r) eqn:Es; try done.
    exfalso. apply Hno. split; eauto.
Qed.

Lemma calculate_delay_rows_timed (df : DataFrame) :
  "scheduled_time" ∈ columns df → "actual_time" ∈ columns df →
  rows (calculate_delay to_datetime df) = omap (annotate to_datetime) (rows df).
Proof.
  intros Hs Ha. unfold calculate_delay.
  rewrite decide_True by done.
  rewrite <- dropna_then_delay.
  destruct df as [cols rs].
  unfold pd.dropna_dt, pd.set_actual_dt, pd.set_scheduled_dt.
  cbn [rows columns].
  rewrite <- list_fmap_compose.
  change (_ ∘ _) with (with_times to_datetime).
  set (c := {["actual_dt"]} ∪ ({["scheduled_dt"]} ∪ cols)).
  assert (Hc : c ≠ ∅) by (unfold c; set_solver).
  destruct (filter _ _) as [|r0 F0]; [done|].
  unfold pd.empty. cbn [rows columns]. rewrite bool_decide_eq_false_2 by done.
  cbn [negb]. unfold pd.drop_dt, pd.set_delay_minutes. cbn [rows columns].
  by rewrite <- list_fmap_compose.
Qed.

Lemma calculate_delay_rows_untimed (df : DataFrame) :
  ¬ ("scheduled_time" ∈ columns df ∧ "actual_time" ∈ columns df) →
  rows (calculate_delay to_datetime df)
  = (λ r, mkRow (source r) (scheduled_dt r) (actual_dt r) None) <$> rows df.
Proof.
  intros Hno. unfold calculate_delay. by rewrite decide_False.
Qed.

Lemma timestamp_column (records : list (gmap string json))
    (record : gmap string json) (col : string) (t : Z) :
  record ∈ records → timestamp to_datetime record col = Some t →
  col ∈ columns (pd.DataFrame_of records).
Proof.
  intros Hin Ht. unfold pd.DataFrame_of. cbn [columns].
  apply elem_of_union_list. exists (dom record). split.
  - by apply list_elem_of_fmap_2.
  - apply elem_of_dom. unfold timestamp, to_datetime_col, pd.cell in Ht.
    cbn [source] in Ht. destruct (record !! col); [eauto|done].
Qed.

Lemma regional_frame_rows (records : list (gmap string json)) :
  rows (regional_frame to_datetime records)
  = if decide ("scheduled_time" ∈ columns (pd.DataFrame_of records)
               ∧ "actual_time" ∈ columns (pd.DataFrame_of records))
    then omap (annotate to_datetime) (rows (pd.DataFrame_of records))
    else rows (pd.DataFrame_of records).
Proof.
  destruct records as [|d l]; [by case_decide|].
  unfold regional_frame. case_decide as Hc.
  - destruct Hc. by apply calculate_delay_rows_timed.
  - rewrite calculate_delay_rows_untimed by done.
    unfold pd.DataFrame_of. cbn [rows]. rewrite <- list_fmap_compose.
    by apply list_fmap_ext.
Qed.

Lemma annotate_source (r r' : Row) :
  annotate to_datetime r = Some r' →
  ∃ s a, timestamp to_datetime (source r) "scheduled_time" = Some s
         ∧ timestamp to_datetime (source r) "actual_time" = Some a
         ∧ r' = mkRow (source r) None None (Some (round_half_even (a - s) 60)).
Proof.
  unfold annotate, timestamp.
  change (to_datetime_col to_datetime ?c (mkRow (source r) None None None))
    with (to_datetime_col to_datetime c r).
  destruct (to_datetime_col to_datetime "actual_time" r) as [a|]; [|done].
  destruct (to_datetime_col to_datetime "scheduled_time" r) as [s|]; [|done].
  intros [= <-]. by exists s, a.
Qed.

(** C1.  Both readers hand the cached records to the same delay block;
    in the frame it returns, every record whose [scheduled_time] and
    [actual_time] parse has [delay_minutes] equal to the difference
    (actual - scheduled) in seconds divided by 60 and rounded to the
    nearest integer, and a record with a timestamp that does not parse
    has no delay value at all; nothing is raised for it. *)
Theorem delay_minutes_rounded_difference :
  (∀ (r : Redis) (stop_ids : list string) (data_strings : list (option string)),
      redis_mget r (redis_key <$> stop_ids) = Return data_strings →
      get_regional_departures_df to_datetime json_loads irregular_frame (Some r) stop_ids
      = Return (combined_frame to_datetime irregular_frame
                  (collect_departures json_loads data_strings)))
  ∧ (∀ records : list (gmap string json),
      combined_frame to_datetime irregular_frame (JObj <$> records)
      = regional_frame to_datetime records)
  ∧ (∀ (r : Redis) (stop_id data_string : string) (records : list (gmap string json)),
      redis_get r (redis_key stop_id) = Return (Some data_string) →
      data_string ≠ "" →
      json_loads data_string = Some (JArr (JObj <$> records)) →
      get_live_departures_for_stop to_datetime json_loads irregular_frame (Some r) stop_id
      = Return (regional_frame to_datetime records))
  ∧ (∀ (records : list (gmap string json)) (record : gmap string json) (s a : Z),
      record ∈ records →
      timestamp to_datetime record "scheduled_time" = Some s →
      timestamp to_datetime record "actual_time" = Some a →
      let d := round_half_even (a - s) 60 in
      mkRow record None None (Some d) ∈ rows (regional_frame to_datetime records)
      ∧ 60 * d - 30 ≤ a - s ≤ 60 * d + 30)
  ∧ (∀ (records : list (gmap string json)) (row : Row),
      row ∈ rows (regional_frame to_datetime records) →
      source row ∈ records
      ∧ (¬ parseable to_datetime (source row) → delay_minutes row = None)
      ∧ (∀ d, delay_minutes row = Some d →
           ∃ s a, timestamp to_datetime (source row) "scheduled_time" = Some s
                  ∧ timestamp to_datetime (source row) "actual_time" = Some a
                  ∧ d = round_half_even (a - s) 60)).
Proof.
  split; [|split; [|split; [|split]]].
  - intros r stop_ids data_strings Hget.
    unfold get_regional_departures_df.
    destruct stop_ids as [|i l].
    + unfold redis_mget in Hget. cbn [fmap list_fmap] in Hget.
      by repeat case_match; simplify_eq.
    + by rewrite Hget.
  - apply combined_frame_records.
  - intros r stop_id data_string records Hget Hne Hjson.
    unfold get_live_departures_for_stop.
    rewrite Hget, decide_False, Hjson by done.
    destruct records as [|record records]; [done|].
    cbn [truthy fmap list_fmap length bool_decide negb].
    rewrite bool_decide_eq_false_2 by done. cbn [negb].
    unfold frame_with_delays, DataFrame_from.
    rewrite <- fmap_cons, objects_records. done.
  - intros records record s a Hin Hs Ha d. split; [|apply round_half_even_nearest].
    rewrite regional_frame_rows, decide_True
      by (split; by eapply timestamp_column).
    apply list_elem_of_omap. exists (mkRow record None None None). split.
    + unfold pd.DataFrame_of. cbn [rows]. by apply list_elem_of_fmap_2'  with record.
    + unfold annotate. unfold timestamp in Hs, Ha. by rewrite Hs, Ha.
  - intros records row Hrow. rewrite regional_frame_rows in Hrow.
    assert (Hcases :
      (∃ r0, r0 ∈ rows (pd.DataFrame_of records) ∧ annotate to_datetime r0 = Some row)
      ∨ (row ∈ rows (pd.DataFrame_of records) ∧ delay_minutes row = None)).
    { case_decide.
      - left. by apply list_elem_of_omap.
      - right. split; [done|]. unfold pd.DataFrame_of in Hrow. cbn [rows] in Hrow.
        apply list_elem_of_fmap in Hrow as (? & -> & _). done. }
    destruct Hcases as [(r0 & Hr0 & Hann)|[Hin Hnone]].
    + apply annotate_source in Hann as (s & a & Hs & Ha & ->). cbn [source delay_minutes].
      unfold pd.DataFrame_of in Hr0. cbn [rows] in Hr0.
      apply list_elem_of_fmap in Hr0 as (rec & -> & Hrec). cbn [source] in *.
      split; [done|]. split.
      * intros Hno. exfalso. apply Hno. split; eauto.
      * intros d [= <-]. eauto.
    + unfold pd.DataFrame_of in Hin. cbn [rows] in Hin.
      apply list_elem_of_fmap in Hin as (rec & -> & Hrec). cbn [source delay_minutes].
      split; [done|]. split; [done|]. done.
Qed.

End DelayFacts.

(** ** KPIs *)

Lemma defined_delays_early (df : DataFrame) :
  pd.empty df || negb (bool_decide ("delay_minutes" ∈ columns df)) = true →
  defined_delays df = [].
Proof.
  intros He. unfold defined_delays. case_decide as Hc; [|done].
  rewrite (bool_decide_eq_true_2 _ Hc), orb_false_r in He.
  unfold pd.empty in He. unfold pd.dropna, pd.delay_series.
  destruct (rows df); [done|].
  apply bool_decide_eq_true_1 in He. set_solver.
Qed.

Lemma defined_delays_late (df : DataFrame) :
  pd.empty df || negb (bool_decide ("delay_minutes" ∈ columns df)) = false →
  defined_delays df = pd.dropna (pd.delay_series df).
Proof.
  intros He. apply orb_false_elim in He as [_ He].
  apply negb_false_iff, bool_decide_eq_true_1 in He.
  unfold defined_delays. by rewrite decide_True.
Qed.

(** The three shapes the returned dictionary can take. *)
Lemma kpis_cases (df : DataFrame) :
  let kpis := (calculate_regional_kpis df).1 in
  (defined_delays df = []
   ∧ (kpis = initial_kpis df ∨ kpis = <["valid_delay_count" := VInt 0]> (initial_kpis df)))
  ∨ (∃ d l, defined_delays df = d :: l
       ∧ kpis =
         <["on_time_percent" :=
             VFloat (Qmult (Qdiv (inject_Z (Z.of_nat (length (on_time (d :: l)))))
                                 (inject_Z (Z.of_nat (length (d :: l)))))
                           100)]>
           (<["avg_delay" := VFloat (mean (d :: l))]>
              (<["valid_delay_count" := VInt (Z.of_nat (length (d :: l)))]>
                 (initial_kpis df)))).
Proof.
  unfold calculate_regional_kpis. fold (initial_kpis df).
  destruct (pd.empty df || _) eqn:He; cbn [fst].
  - left. split; [by apply defined_delays_early|by left].
  - rewrite (defined_delays_late df He).
    destruct (pd.dropna (pd.delay_series df)) as [|d l]; cbn [fst].
    + left. split; [done|by right].
    + right. by exists d, l.
Qed.

Lemma kpis_frame_unchanged (df : DataFrame) : (calculate_regional_kpis df).2 = df.
Proof. unfold calculate_regional_kpis. by repeat case_match. Qed.

Lemma on_time_percent_bounds (c n : Z) :
  0 ≤ c ≤ n → 0 < n →
  (0 <= inject_Z c / inject_Z n * 100 <= 100)%Q.
Proof.
  intros Hc Hn. destruct n as [|p|p]; try lia.
  unfold Qdiv, Qinv, Qmult, Qle, inject_Z. cbn.
  rewrite Pos.mul_1_l, Pos.mul_1_r. lia.
Qed.

Lemma defined_delays_length (df : DataFrame) :
  Z.of_nat (length (defined_delays df)) ≤ pd.len df.
Proof.
  unfold defined_delays, pd.len, pd.dropna, pd.delay_series.
  case_decide; [|simpl; lia].
  assert (Hlen : ∀ s : list (option Z), (length (omap id s) ≤ length s)%nat).
  { intros s. induction s as [|[x|] s IH]; cbn; lia. }
  specialize (Hlen (delay_minutes <$> rows df)).
  rewrite length_fmap in Hlen. lia.
Qed.

Lemma percent_reordered (c n : Z) :
  0 < n →
  (inject_Z c / inject_Z n * 100 == 100 * inject_Z c / inject_Z n)%Q.
Proof.
  intros Hn. field. intros H0.
  destruct n; try lia. discriminate H0.
Qed.

Lemma kpis_total_departures (df : DataFrame) :
  (calculate_regional_kpis df).1 !! "total_departures" = Some (VInt (pd.len df)).
Proof.
  destruct (kpis_cases df) as [[_ [-> | ->]] | (d & l & _ & ->)];
    by unfold initial_kpis.
Qed.

Lemma kpis_valid_delay_count (df : DataFrame) :
  (calculate_regional_kpis df).1 !! "valid_delay_count"
  = Some (VInt (Z.of_nat (length (defined_delays df)))).
Proof.
  destruct (kpis_cases df) as [[-> [-> | ->]] | (d & l & -> & ->)];
    by unfold initial_kpis.
Qed.

Lemma kpis_dom (df : DataFrame) :
  dom (calculate_regional_kpis df).1
  = ({[ "avg_delay"; "on_time_percent"; "total_departures"; "valid_delay_count" ]}
     : gset string).
Proof.
  destruct (kpis_cases df) as [[_ [-> | ->]] | (d & l & _ & ->)];
    unfold initial_kpis; rewrite ?dom_insert_L, dom_singleton_L; set_solver.
Qed.

(** C3.  [on_time_percent] is 100 times the number of defined delays in
    [-1, 3] divided by the number of defined delays, and [avg_delay] is
    their mean; with no defined delay both are [None] (not zero), and
    the function returns its dictionary in either case. *)
Theorem kpis_formulas (df : DataFrame) :
  let kpis := (calculate_regional_kpis df).1 in
  let valid := defined_delays df in
  kpis !! "valid_delay_count" = Some (VInt (Z.of_nat (length valid)))
  ∧ match valid with
    | [] =>
        kpis !! "avg_delay" = Some VNone
        ∧ kpis !! "on_time_percent" = Some VNone
    | _ :: _ =>
        ∃ avg pct : Q,
          kpis !! "avg_delay" = Some (VFloat avg)
          ∧ kpis !! "on_time_percent" = Some (VFloat pct)
          ∧ (avg == inject_Z (foldr Z.add 0%Z valid)
                    / inject_Z (Z.of_nat (length valid)))%Q
          ∧ (pct == 100 * inject_Z (Z.of_nat (length (filter (λ d, -1 ≤ d ≤ 3) valid)))
                    / inject_Z (Z.of_nat (length valid)))%Q
    end.
Proof.
  intros kpis valid. subst kpis valid.
  split; [apply kpis_valid_delay_count|].
  destruct (kpis_cases df) as [[-> [-> | ->]] | (d & l & -> & ->)].
  - by unfold initial_kpis.
  - by unfold initial_kpis.
  - eexists _, _. split; [done|]. split; [done|].
    split; [reflexivity|].
    apply percent_reordered. cbn [length]. lia.
Qed.

(** C10.  The dictionary has exactly the four keys; [total_departures]
    is the number of rows of the input; [valid_delay_count] lies between
    0 and [total_departures]; when it is positive, [on_time_percent] is
    a number between 0 and 100; the caller's frame is left as it was. *)
Theorem kpis_shape (df : DataFrame) :
  let kpis := (calculate_regional_kpis df).1 in
  dom kpis
  = ({[ "avg_delay"; "on_time_percent"; "total_departures"; "valid_delay_count" ]}
     : gset string)
  ∧ kpis !! "total_departures" = Some (VInt (Z.of_nat (length (rows df))))
  ∧ (∃ valid : Z,
       kpis !! "valid_delay_count" = Some (VInt valid)
       ∧ 0 ≤ valid ≤ Z.of_nat (length (rows df))
       ∧ (0 < valid →
          ∃ pct : Q, kpis !! "on_time_percent" = Some (VFloat pct)
                     ∧ (0 <= pct <= 100)%Q))
  ∧ (calculate_regional_kpis df).2 = df.
Proof.
  intros kpis. subst kpis.
  split; [apply kpis_dom|]. split; [apply kpis_total_departures|].
  split; [|apply kpis_frame_unchanged].
  exists (Z.of_nat (length (defined_delays df))).
  split; [apply kpis_valid_delay_count|].
  split; [pose proof (defined_delays_length df); unfold pd.len in *; lia|].
  intros Hpos.
  destruct (kpis_cases df) as [[He _] | (d & l & He & ->)].
  - rewrite He in Hpos. cbn in Hpos. lia.
  - eexists. split; [done|].
    apply on_time_percent_bounds; [|cbn [length]; lia].
    unfold on_time. pose proof (length_filter
      (λ d0, ON_TIME_THRESHOLD_MINUTES_LOW ≤ d0 ∧ d0 ≤ ON_TIME_THRESHOLD_MINUTES_HIGH)
      (d :: l)). lia.
Qed.

(** ** Coverage *)

Section CoverageFacts.

Variable to_datetime : json → option Z.

Lemma calculate_delay_columns (df : DataFrame) :
  "delay_minutes" ∈ columns (calculate_delay to_datetime df).
Proof.
  unfold calculate_delay. case_decide as Hc; clear Hc; [|cbn; set_solver].
  destruct (negb _); cbn; set_solver.
Qed.

Lemma annotate_record_delay (records : list (gmap string json)) :
  delay_minutes <$> omap (annotate to_datetime)
                      ((λ d, mkRow d None None None) <$> records)
  = Some <$> omap (record_delay to_datetime) records.
Proof.
  induction records as [|record records IH]; [done|].
  rewrite fmap_cons. cbn [omap list_omap].
  unfold annotate at 1, record_delay at 1, timestamp.
  destruct (to_datetime_col to_datetime "actual_time" _) as [a|]; [|done].
  destruct (to_datetime_col to_datetime "scheduled_time" _) as [s|]; [|done].
  rewrite !fmap_cons. cbn [delay_minutes]. by rewrite IH.
Qed.

Lemma dropna_Some (l : list Z) : pd.dropna (Some <$> l) = l.
Proof. unfold pd.dropna. induction l as [|x l IH]; [done|]. cbn. by rewrite IH. Qed.

Lemma dropna_None {A} (l : list A) : pd.dropna ((λ _, None) <$> l) = [].
Proof. unfold pd.dropna. by induction l. Qed.

Lemma untimed_record_delay (records : list (gmap string json)) :
  ¬ ("scheduled_time" ∈ columns (pd.DataFrame_of records)
     ∧ "actual_time" ∈ columns (pd.DataFrame_of records)) →
  omap (record_delay to_datetime) records = [].
Proof.
  intros Hno.
  assert (Hall : ∀ record, record ∈ records → record_delay to_datetime record = None).
  { intros record Hin. unfold record_delay.
    destruct (timestamp to_datetime record "actual_time") as [a|] eqn:Ea; [|done].
    destruct (timestamp to_datetime record "scheduled_time") as [s|] eqn:Es; [|done].
    exfalso. apply Hno. split; by eapply timestamp_column. }
  clear Hno. induction records as [|record records IH]; [done|].
  cbn [omap list_omap]. rewrite Hall by left.
  apply IH. intros. apply Hall. by right.
Qed.

Lemma regional_frame_defined_delays (records : list (gmap string json)) :
  defined_delays (regional_frame to_datetime records)
  = omap (record_delay to_datetime) records.
Proof.
  unfold defined_delays, pd.delay_series.
  rewrite regional_frame_rows.
  destruct records as [|d l]; [by case_decide|].
  unfold regional_frame. rewrite decide_True by apply calculate_delay_columns.
  case_decide as Hc.
  - unfold pd.DataFrame_of at 1. cbn [rows].
    by rewrite annotate_record_delay, dropna_Some.
  - rewrite (untimed_record_delay _ Hc).
    unfold pd.DataFrame_of. cbn [rows]. rewrite <- list_fmap_compose.
    apply dropna_None.
Qed.

(** The counts of a reader's frame.  The reader drops the row of a
    record with a timestamp that does not parse: when the cached
    records carry both time columns, [total_departures] and
    [valid_delay_count] are both the number of records whose two
    timestamps parse; when a time column is missing altogether every
    record is kept, none with a delay. *)
Lemma unparseable_records_dropped (records : list (gmap string json)) :
  let df := regional_frame to_datetime records in
  let kpis := (calculate_regional_kpis df).1 in
  let defined := omap (record_delay to_datetime) records in
  defined_delays df = defined
  ∧ kpis !! "valid_delay_count" = Some (VInt (Z.of_nat (length defined)))
  ∧ kpis !! "total_departures"
    = Some (VInt (if decide ("scheduled_time" ∈ columns (pd.DataFrame_of records)
                             ∧ "actual_time" ∈ columns (pd.DataFrame_of records))
                  then Z.of_nat (length defined)
                  else Z.of_nat (length records))).
Proof.
  intros df kpis defined. subst df kpis defined.
  split; [apply regional_frame_defined_delays|].
  split; [by rewrite kpis_valid_delay_count, regional_frame_defined_delays|].
  rewrite kpis_total_departures. unfold pd.len.
  rewrite regional_frame_rows. do 3 f_equal.
  case_decide.
  - rewrite <- (length_fmap delay_minutes).
    unfold pd.DataFrame_of. cbn [rows].
    by rewrite annotate_record_delay, length_fmap.
  - unfold pd.DataFrame_of. cbn [rows]. by rewrite length_fmap.
Qed.

End CoverageFacts.

(** The coverage ratio of the claim does not hold of the code: with one
    parseable and one unparseable record, [total_departures] is not
    the number of records. *)
Lemma coverage_below_one_fails :
  ¬ (∀ (to_datetime : json → option Z) (records : list (gmap string json)),
       (∃ record, record ∈ records ∧ parseable to_datetime record) →
       (∃ record, record ∈ records ∧ ¬ parseable to_datetime record) →
       let kpis := (calculate_regional_kpis (regional_frame to_datetime records)).1 in
       ∃ total valid : Z,
         kpis !! "total_departures" = Some (VInt total)
         ∧ kpis !! "valid_delay_count" = Some (VInt valid)
         ∧ total = Z.of_nat (length records)
         ∧ valid < total).
Proof.
  intros Hclaim.
  destruct (Hclaim epoch_seconds one_unparseable) as (total & valid & Ht & Hv & Hlen & Hlt).
  - exists (departure (JNum 0) (JNum 90)). split; [left|].
    split; by eexists.
  - exists (departure (JNum 0) JNull). split; [right; left|].
    intros [_ [t Ht]]. discriminate Ht.
  - vm_compute in Ht, Hlen. congruence.
Qed.

(** C4.  The code at the failing input: the cache holds two records for
    stop 510, the second without a real-time estimate.  The regional
    reader returns a frame of one row, so [total_departures] is 1 and
    not the 2 records found in the cache, [valid_delay_count] is 1 as
    well, and the dashboard's coverage delta, "valid delay data out of
    total departures found in cache", is 100 percent. *)
Theorem coverage_counts_dropped_record :
  ∃ df,
    get_regional_departures_df epoch_seconds unparseable_loads strict_frame
      (Some sample_cache) ["510"] = Return df
    ∧ collect_departures unparseable_loads [Some "payload"] = JObj <$> one_unparseable
    ∧ length one_unparseable = 2%nat
    ∧ pd.len df = 1
    ∧ (calculate_regional_kpis df).1 !! "total_departures" = Some (VInt 1)
    ∧ (calculate_regional_kpis df).1 !! "valid_delay_count" = Some (VInt 1)
    ∧ ∃ q, coverage_delta (calculate_regional_kpis df).1 = Some q ∧ (q == 100)%Q.
Proof.
  exists (regional_frame epoch_seconds one_unparseable).
  split; [reflexivity|]. split; [reflexivity|]. split; [reflexivity|].
  split; [by vm_compute|]. split; [by vm_compute|]. split; [by vm_compute|].
  eexists. split; [by vm_compute|]. reflexivity.
Qed.

(** ** Bucket distribution *)

Example labels_as_printed :
  DELAY_BUCKET_LABELS
  = [ "< -1m (Early)"; "-1m to +3m (On Time)"; "+4m to +10m (Late)";
      "> +10m (Very Late)" ].
Proof. reflexivity. Qed.

Lemma cut_bucket (x : Z) :
  cut DELAY_BUCKET_BINS DELAY_BUCKET_LABELS x
  = Some (if x <=? -2 then "< -1m (Early)"
          else if x <=? 3 then "-1m to +3m (On Time)"
          else if x <=? 10 then "+4m to +10m (Late)"
          else "> +10m (Very Late)").
Proof.
  rewrite labels_as_printed. unfold DELAY_BUCKET_BINS.
  unfold ON_TIME_THRESHOLD_MINUTES_LOW, ON_TIME_THRESHOLD_MINUTES_HIGH.
  cbn [cut edge_below edge_reaches andb].
  change (-1 - 1) with (-2).
  destruct (x <=? -2) eqn:E1; [done|].
  destruct (x <=? 3) eqn:E2.
  { replace (-2 <? x) with true by lia. done. }
  replace (-2 <? x) with true by lia. cbn [andb].
  destruct (x <=? 10) eqn:E3.
  { replace (3 <? x) with true by lia. done. }
  replace (3 <? x) with true by lia. cbn [andb].
  replace (10 <? x) with true by lia. done.
Qed.

Lemma count_category {A} (f : A → option string) (c : string) (P : A → Prop)
    `{!∀ x, Decision (P x)} (l : list A) :
  (∀ x, f x = Some c ↔ P x) →
  length (filter (λ y, y = Some c) (f <$> l)) = length (filter P l).
Proof.
  intros Hiff. induction l as [|x l IH]; [done|].
  rewrite fmap_cons, !filter_cons.
  destruct (decide (f x = Some c)) as [Hc|Hc], (decide (P x)) as [Hp|Hp];
    cbn [length]; try (by rewrite IH).
  - by apply Hiff in Hc.
  - by apply Hiff in Hp.
Qed.

Lemma buckets_partition (l : list Z) :
  Z.of_nat (length (filter (λ d, d ≤ -2) l))
  + Z.of_nat (length (filter (λ d, -1 ≤ d ≤ 3) l))
  + Z.of_nat (length (filter (λ d, 4 ≤ d ≤ 10) l))
  + Z.of_nat (length (filter (λ d, 11 ≤ d) l))
  = Z.of_nat (length l).
Proof.
  induction l as [|d l IH]; [done|].
  rewrite !filter_cons. repeat case_decide; cbn [length]; lia.
Qed.

Lemma aligned_counts (cnt : string → Z) :
  (λ row : string * Z,
     (row.1, default 0 (series_at ((λ c, (c, cnt c)) <$> DELAY_BUCKET_LABELS) row.1)))
    <$> ((λ label, (label, 0)) <$> DELAY_BUCKET_LABELS)
  = (λ c, (c, cnt c)) <$> DELAY_BUCKET_LABELS.
Proof. vm_compute. reflexivity. Qed.

(** C2.  Every defined delay falls in exactly one of the four buckets
    (at most -2; -1 to 3; 4 to 10; at least 11); the result lists the
    four labels in order, each with the number of defined delays in its
    range (zero where there is none, also for an empty input), and the
    four counts add up to the number of defined delays. *)
Theorem delay_distribution_buckets (df : DataFrame) :
  let valid := defined_delays df in
  let count (P : Z → Prop) `{!∀ d, Decision (P d)} :=
    Z.of_nat (length (filter P valid)) in
  get_regional_delay_distribution df
  = [ ("< -1m (Early)", count (λ d, d ≤ -2));
      ("-1m to +3m (On Time)", count (λ d, -1 ≤ d ≤ 3));
      ("+4m to +10m (Late)", count (λ d, 4 ≤ d ≤ 10));
      ("> +10m (Very Late)", count (λ d, 11 ≤ d)) ]
  ∧ count (λ d, d ≤ -2) + count (λ d, -1 ≤ d ≤ 3)
    + count (λ d, 4 ≤ d ≤ 10) + count (λ d, 11 ≤ d)
    = Z.of_nat (length valid)
  ∧ ∀ d : Z,
      (d ≤ -2 ∧ ¬ (-1 ≤ d ≤ 3) ∧ ¬ (4 ≤ d ≤ 10) ∧ ¬ 11 ≤ d)
      ∨ (¬ d ≤ -2 ∧ -1 ≤ d ≤ 3 ∧ ¬ (4 ≤ d ≤ 10) ∧ ¬ 11 ≤ d)
      ∨ (¬ d ≤ -2 ∧ ¬ (-1 ≤ d ≤ 3) ∧ 4 ≤ d ≤ 10 ∧ ¬ 11 ≤ d)
      ∨ (¬ d ≤ -2 ∧ ¬ (-1 ≤ d ≤ 3) ∧ ¬ (4 ≤ d ≤ 10) ∧ 11 ≤ d).
Proof.
  intros valid count. subst count. cbn beta.
  split; [|split; [pose proof (buckets_partition valid); lia | intros d; lia]].
  unfold get_regional_delay_distribution. subst valid.
  destruct (pd.empty df || _) eqn:He.
  { by rewrite (defined_delays_early df He). }
  rewrite (defined_delays_late df He).
  destruct (pd.dropna (pd.delay_series df)) as [|d l]; [done|].
  generalize (d :: l). clear. intros valid.
  unfold value_counts.
  rewrite (aligned_counts (λ c, Z.of_nat (length (filter (λ x, x = Some c)
             (cut DELAY_BUCKET_BINS DELAY_BUCKET_LABELS <$> valid))))).
  rewrite labels_as_printed at 1. cbn [fmap list_fmap].
  repeat f_equal; apply count_category; intros x; rewrite cut_bucket;
    repeat case_match; split; intros; simplify_eq; try done; lia.
Qed.

(** ** Departure fetcher *)

Lemma split_nonempty (sep : ascii) (s : string) : split sep s ≠ [].
Proof.
  destruct s as [|c s]; [done|]. cbn [split].
  case_decide; [done|]. by destruct (split sep s).
Qed.

Lemma split_cons (sep c : ascii) (s : string) :
  split sep (String c s)
  = if decide (c = sep) then EmptyString :: split sep s
    else String c (hd EmptyString (split sep s)) :: tl (split sep s).
Proof.
  cbn [split]. case_decide; [done|].
  pose proof (split_nonempty sep s). by destruct (split sep s).
Qed.

Lemma prefix_de_split (s : string) :
  String.prefix "de:" s = true ↔ ∃ rest, split ":" s = "de" :: rest ∧ rest ≠ [].
Proof.
  split.
  - intros Hp. destruct s as [|c1 [|c2 [|c3 s]]]; cbn in Hp; try done;
      repeat (case_match; try done); simplify_eq.
    exists (split ":" s). split; [|apply split_nonempty].
    by rewrite !split_cons.
  - intros (rest & Hs & Hne).
    destruct s as [|c1 s]; [done|]. rewrite split_cons in Hs.
    case_decide; [done|]. injection Hs as -> Hhd Htl.
    destruct s as [|c2 s]; [done|]. rewrite split_cons in Hhd, Htl.
    case_decide; [done|]. cbn [hd tl] in Hhd, Htl. injection Hhd as -> Hhd.
    destruct s as [|c3 s]; [by subst|]. rewrite split_cons in Hhd, Htl.
    case_decide; [subst; by destruct s|discriminate Hhd].
Qed.

Lemma compound_form_checked (stop_id : string) :
  compound_form stop_id
  ↔ String.prefix "de:" stop_id = true ∧ (4 ≤ length (split ":" stop_id))%nat.
Proof.
  unfold compound_form. rewrite prefix_de_split. split.
  - intros (rest & Hs & Hlen). split.
    + exists rest. split; [done|]. destruct rest; [cbn in Hlen; lia|done].
    + rewrite Hs. cbn [length]. lia.
  - intros [(rest & Hs & _) Hlen]. exists rest. split; [done|].
    rewrite Hs in Hlen. cbn [length] in Hlen. lia.
Qed.

(** C6.  A stop id in the compound form is replaced by its third
    colon-separated part, and that part is what the request URL ends
    in; any other id goes into the URL unchanged.  The result depends
    on the API only through the answer to that URL. *)
Theorem stop_id_normalised (stop_id : string) :
  (compound_form stop_id →
     ∃ segment, split ":" stop_id !! 2%nat = Some segment
                ∧ numeric_stop_id stop_id = segment
                ∧ api_url stop_id = api_base_url +:+ "/abfahrten/VGN/" +:+ segment)
  ∧ (¬ compound_form stop_id →
       numeric_stop_id stop_id = stop_id
       ∧ api_url stop_id = api_base_url +:+ "/abfahrten/VGN/" +:+ stop_id)
  ∧ (∀ api api' : string → response,
       api (api_url stop_id) = api' (api_url stop_id) →
       fetch_and_parse_departures api stop_id = fetch_and_parse_departures api' stop_id).
Proof.
  split; [|split].
  - intros Hc. pose proof Hc as (rest & Hs & Hlen).
    apply compound_form_checked in Hc as [Hp Hl].
    destruct rest as [|p1 [|segment rest]]; cbn [length] in Hlen; try lia.
    exists segment. split; [by rewrite Hs|].
    assert (Hn : numeric_stop_id stop_id = segment).
    { unfold numeric_stop_id. rewrite Hp, decide_True by done. by rewrite Hs. }
    split; [done|]. unfold api_url. by rewrite Hn.
  - intros Hc.
    assert (Hn : numeric_stop_id stop_id = stop_id).
    { unfold numeric_stop_id. destruct (String.prefix "de:" stop_id) eqn:Hp; [|done].
      case_decide as Hl; [|done]. exfalso. apply Hc.
      by apply compound_form_checked. }
    split; [done|]. unfold api_url. by rewrite Hn.
  - intros api api' Heq. unfold fetch_and_parse_departures. by rewrite Heq.
Qed.

Example gtfs_id_converted :
  api_url "de:09564:510:11:1" = "https://start.vag.de/dm/api/v1/abfahrten/VGN/510".
Proof. reflexivity. Qed.

Example numeric_id_kept :
  api_url "3151" = "https://start.vag.de/dm/api/v1/abfahrten/VGN/3151".
Proof. reflexivity. Qed.

Example short_gtfs_id_kept :
  api_url "de:09564:510" = "https://start.vag.de/dm/api/v1/abfahrten/VGN/de:09564:510".
Proof. reflexivity. Qed.

Lemma parse_departures_objects (raw_departures : list (gmap string json)) :
  parse_departures (JObj <$> raw_departures)
  = inr ((λ d, match simplified_departure (JObj d) with
               | inr simplified => simplified
               | inl _ => ∅
               end) <$> raw_departures).
Proof.
  induction raw_departures as [|d l IH]; [done|].
  rewrite !fmap_cons. cbn [parse_departures]. rewrite IH. done.
Qed.

(** C5.  A timeout, an HTTP error status, a network failure and a body
    that is not JSON all end in [None]; a JSON object without the
    [Abfahrten] field gives the empty list, which is not [None]; each
    raw departure becomes a record with the five internal fields, a
    field holding [None] when the raw field is missing.  The function
    has no exceptional outcome: every exception of the [try] block has
    a handler returning [None]. *)
Theorem fetch_fails_closed (api : string → response) (stop_id : string) :
  let resp := api (api_url stop_id) in
  let result := fetch_and_parse_departures api stop_id in
  ((resp = TimedOut ∨ (∃ status, resp = BadStatus status)
    ∨ resp = NetworkFailure ∨ resp = MalformedJSON) →
   result = None)
  ∧ (∀ raw_data : gmap string json,
       resp = Body (JObj raw_data) → raw_data !! "Abfahrten" = None →
       result = Some [] ∧ result ≠ None)
  ∧ (∀ (raw_data : gmap string json) (raw_departures : list (gmap string json)),
       resp = Body (JObj raw_data) →
       raw_data !! "Abfahrten" = Some (JArr (JObj <$> raw_departures)) →
       ∃ parsed,
         result = Some parsed
         ∧ length parsed = length raw_departures
         ∧ ∀ (i : nat) (d : gmap string json),
             raw_departures !! i = Some d →
             ∃ record : gmap string json,
               parsed !! i = Some record
               ∧ dom record = list_to_set FIELDS.*1
               ∧ ∀ key raw, (key, raw) ∈ FIELDS →
                   record !! key
                   = Some (match d !! raw with Some v => v | None => JNull end)).
Proof.
  intros resp result. subst resp result. unfold fetch_and_parse_departures.
  split; [|split].
  - intros [-> | [[status ->] | [-> | ->]]]; done.
  - intros raw_data -> Hnone. cbn [try_fetch]. rewrite Hnone. done.
  - intros raw_data raw_departures -> Hsome. cbn [try_fetch]. rewrite Hsome.
    cbn [default from_option id]. rewrite parse_departures_objects.
    eexists. split; [done|]. split; [by rewrite length_fmap|].
    intros i d Hi. eexists. split; [by rewrite list_lookup_fmap, Hi|].
    cbn [simplified_departure]. split.
    + rewrite !dom_insert_L, dom_singleton_L. cbn. set_solver.
    + intros key raw Hin. unfold FIELDS in Hin. unfold dict_get.
      repeat (apply elem_of_cons in Hin as [Hin | Hin]; [by simplify_eq|]).
      by apply elem_of_nil in Hin.
Qed.

(** ** Polling cycle *)

Lemma redis_key_inj (a b : string) : redis_key a = redis_key b → a = b.
Proof. unfold redis_key. cbn. intros [= H]. exact H. Qed.

Lemma stops_to_fetch_length (stop_ids : list string) :
  (length (stops_to_fetch stop_ids) ≤ 50)%nat.
Proof. unfold stops_to_fetch. rewrite length_take. lia. Qed.

Lemma priority_stops_first (stop_ids : list string) :
  priority_stops `prefix_of` stops_to_fetch stop_ids.
Proof.
  unfold stops_to_fetch.
  exists (take 47 (filter (λ s, s ∉ priority_stops) stop_ids)). done.
Qed.

Lemma ordered_stops_permutation (stop_ids : list string) :
  NoDup stop_ids → (∀ p, p ∈ priority_stops → p ∈ stop_ids) →
  priority_stops ++ filter (λ s, s ∉ priority_stops) stop_ids ≡ₚ stop_ids.
Proof.
  intros Hnd Hin. apply NoDup_Permutation; [|done|].
  - apply NoDup_app. split; [|split].
    + apply (bool_decide_unpack _). by vm_compute.
    + intros x Hx Hf. apply list_elem_of_filter in Hf as [Hf _]. done.
    + by apply NoDup_filter.
  - intros x. rewrite elem_of_app, list_elem_of_filter. split.
    + intros [Hp | [_ Hx]]; auto.
    + intros Hx. destruct (decide (x ∈ priority_stops)); auto.
Qed.

Section PollingFacts.

Variable api : string → response.
Variable json_dumps : list (gmap string json) → string.
Variable FETCH_INTERVAL_SECONDS : Z.
Variable get_redis_conn : option Redis.

(** The stops asked for are a prefix of the worklist, whatever the
    connection does. *)
Lemma fetch_loop_fetched_prefix (stops : list string) (r : Redis)
    (successful total : Z) (asked : list string) :
  ∃ done_, fetched (fetch_loop api json_dumps FETCH_INTERVAL_SECONDS stops r successful total asked) = asked ++ done_
           ∧ done_ `prefix_of` stops.
Proof.
  revert r successful total asked.
  induction stops as [|stop rest IH]; intros r successful total asked.
  { exists []. split; [by rewrite app_nil_r|done]. }
  cbn [fetch_loop].
  assert (Hstep : ∀ r' s' t',
    ∃ done_, fetched (fetch_loop api json_dumps FETCH_INTERVAL_SECONDS rest r' s' t' (asked ++ [stop])) = asked ++ done_
             ∧ done_ `prefix_of` stop :: rest).
  { intros r' s' t'. destruct (IH r' s' t' (asked ++ [stop])) as (d & -> & Hd).
    exists (stop :: d). split; [by rewrite <- app_assoc|by apply prefix_cons]. }
  destruct (fetch_and_parse_departures api stop) as [[|d l]|]; [done| |done].
  destruct (redis_set _ _ _ _) as [r' [[|]|]]; [|done|done].
  exists [stop]. split; [done|]. apply prefix_cons, prefix_nil.
Qed.

(** On a healthy connection every stop of the worklist is asked for,
    a non-empty list is stored under the stop's key with the expiry
    [REDIS_EXPIRY], and nothing else is written. *)
Lemma fetch_loop_healthy (stops : list string) (r : Redis)
    (successful total : Z) (asked : list string) :
  faults r = [] →
  ∃ r' successful' total',
    fetch_loop api json_dumps FETCH_INTERVAL_SECONDS stops r successful total asked
    = mkCycle (Some r') successful' total' (asked ++ stops)
    ∧ faults r' = []
    ∧ ∀ stop,
        db r' !! redis_key stop
        = match fetch_and_parse_departures api stop with
          | Some ((_ :: _) as departures) =>
              if decide (stop ∈ stops)
              then Some (json_dumps departures, FETCH_INTERVAL_SECONDS + 30)
              else db r !! redis_key stop
          | Some [] | None => db r !! redis_key stop
          end.
Proof.
  revert r successful total asked.
  induction stops as [|stop0 rest IH]; intros r successful total asked Hr.
  { exists r, successful, total. rewrite app_nil_r. split; [done|]. split; [done|].
    intros stop. repeat case_match; done || set_solver. }
  cbn [fetch_loop].
  destruct (fetch_and_parse_departures api stop0) as [[|d0 l0]|] eqn:Hf0.
  - destruct (IH r successful total (asked ++ [stop0]) Hr)
      as (r' & s' & t' & -> & Hr' & Hdb).
    exists r', s', t'. rewrite <- app_assoc. split; [done|]. split; [done|].
    intros stop. rewrite Hdb.
    destruct (fetch_and_parse_departures api stop) as [[|d l]|] eqn:Hf; try done.
    destruct (decide (stop = stop0)) as [->|Hne]; [congruence|].
    rewrite (decide_ext (stop ∈ stop0 :: rest) (stop ∈ rest)); [done|]. set_solver.
  - unfold redis_set. rewrite Hr. cbn [tail].
    set (r1 := mkRedis _ []).
    destruct (IH r1 (successful + 1) (total + Z.of_nat (length (d0 :: l0)))
                (asked ++ [stop0]) eq_refl)
      as (r' & s' & t' & -> & Hr' & Hdb).
    exists r', s', t'. rewrite <- app_assoc. split; [done|]. split; [done|].
    intros stop. rewrite Hdb. unfold r1, REDIS_EXPIRY. cbn [db].
    destruct (decide (stop = stop0)) as [->|Hne].
    + rewrite Hf0, (decide_True (P := stop0 ∈ stop0 :: rest)) by left.
      case_decide; [done|]. by rewrite lookup_insert_eq.
    + rewrite lookup_insert_ne by (intros Hk; by apply redis_key_inj in Hk).
      destruct (fetch_and_parse_departures api stop) as [[|d l]|] eqn:Hf; try done.
      rewrite (decide_ext (stop ∈ stop0 :: rest) (stop ∈ rest)); [done|]. set_solver.
  - destruct (IH r successful total (asked ++ [stop0]) Hr)
      as (r' & s' & t' & -> & Hr' & Hdb).
    exists r', s', t'. rewrite <- app_assoc. split; [done|]. split; [done|].
    intros stop. rewrite Hdb.
    destruct (fetch_and_parse_departures api stop) as [[|d l]|] eqn:Hf; try done.
    destruct (decide (stop = stop0)) as [->|Hne]; [congruence|].
    rewrite (decide_ext (stop ∈ stop0 :: rest) (stop ∈ rest)); [done|]. set_solver.
Qed.

(** When every stop yields the empty list no command is sent at all. *)
Lemma fetch_loop_all_empty (stops : list string) (r : Redis)
    (successful total : Z) (asked : list string) :
  (∀ stop, stop ∈ stops → fetch_and_parse_departures api stop = Some []) →
  fetch_loop api json_dumps FETCH_INTERVAL_SECONDS stops r successful total asked
  = mkCycle (Some r) successful total (asked ++ stops).
Proof.
  revert asked. induction stops as [|stop rest IH]; intros asked Hall.
  { by rewrite app_nil_r. }
  cbn [fetch_loop]. rewrite Hall by left.
  rewrite IH by (intros; apply Hall; by right). by rewrite <- app_assoc.
Qed.

Lemma job_fetched_prefix (stop_ids : list string) (conn : option Redis) :
  fetched (fetch_nuremberg_stops_job api json_dumps FETCH_INTERVAL_SECONDS
             get_redis_conn stop_ids conn) `prefix_of` stops_to_fetch stop_ids.
Proof.
  unfold fetch_nuremberg_stops_job.
  destruct stop_ids as [|s l]; [apply prefix_nil|].
  destruct conn as [r|]; [|destruct get_redis_conn as [r|]; [|apply prefix_nil]].
  all: destruct (fetch_loop_fetched_prefix (stops_to_fetch (s :: l)) r 0 0 [])
         as (d & -> & Hd); done.
Qed.

End PollingFacts.

Lemma monitored_stops_priority (engine : Engine) (p : string) :
  p ∈ priority_stops → p ∈ monitored_stops engine.
Proof.
  intros Hp. unfold monitored_stops, get_stops_by_region, REGION_NAME.
  assert (Hmap : prefix_map !! "Nuremberg" = Some "de:09564:%") by reflexivity.
  rewrite Hmap, decide_True by done.
  rewrite elem_of_list_to_set, !elem_of_app. left. right. exact Hp.
Qed.

Section PollingClaims.

Variable api : string → response.
Variable json_dumps : list (gmap string json) → string.
Variable FETCH_INTERVAL_SECONDS : Z.
Variable get_redis_conn : option Redis.

(** C9.  In a cycle started by [main] the worklist is the stop list
    reordered so that the three priority ids come first, cut to its
    first 50 entries: a permutation of a part of the input, at most
    50 long, priority ids first.  The stops asked for are that
    worklist, or its beginning when the connection dies midway. *)
Theorem fetched_stops_prioritised_and_capped (engine : Engine)
    (all_stop_ids : list string) (conn : option Redis) :
  list_of_set all_stop_ids (monitored_stops engine) →
  let worklist := stops_to_fetch all_stop_ids in
  let asked :=
    fetched (fetch_nuremberg_stops_job api json_dumps FETCH_INTERVAL_SECONDS
               get_redis_conn all_stop_ids conn) in
  (∃ ordered_stops,
      ordered_stops ≡ₚ all_stop_ids
      ∧ priority_stops `prefix_of` ordered_stops
      ∧ worklist = take 50 ordered_stops)
  ∧ worklist ⊆+ all_stop_ids
  ∧ (length worklist ≤ 50)%nat
  ∧ priority_stops `prefix_of` worklist
  ∧ asked `prefix_of` worklist
  ∧ asked ⊆+ all_stop_ids
  ∧ (length asked ≤ 50)%nat
  ∧ (∀ r, conn = Some r → faults r = [] → asked = worklist).
Proof.
  intros [Hnd Hset] worklist asked.
  assert (Hprio : ∀ p, p ∈ priority_stops → p ∈ all_stop_ids).
  { intros p Hp. apply Hset. by apply monitored_stops_priority. }
  pose proof (ordered_stops_permutation all_stop_ids Hnd Hprio) as Hperm.
  assert (Hsub : worklist ⊆+ all_stop_ids).
  { unfold worklist, stops_to_fetch. rewrite <- Hperm at 2. apply submseteq_take. }
  assert (Hpre : asked `prefix_of` worklist) by apply job_fetched_prefix.
  split; [|split; [done|split; [apply stops_to_fetch_length|
    split; [apply priority_stops_first|split; [done|split; [|split]]]]]].
  - eexists. split; [exact Hperm|]. split; [by apply prefix_app_r|done].
  - destruct Hpre as [k Hk]. rewrite <- Hsub, Hk.
    apply sublist_submseteq, sublist_inserts_r. done.
  - apply prefix_length in Hpre.
    pose proof (stops_to_fetch_length all_stop_ids). unfold worklist in Hpre. lia.
  - intros r -> Hr. unfold asked, fetch_nuremberg_stops_job.
    destruct all_stop_ids as [|s l].
    { exfalso. specialize (Hprio "510"). ospecialize* Hprio; [by left|].
      by apply elem_of_nil in Hprio. }
    destruct (fetch_loop_healthy api json_dumps FETCH_INTERVAL_SECONDS
                (stops_to_fetch (s :: l)) r 0 0 [] Hr) as (r' & s' & t' & -> & _).
    done.
Qed.

(** C7, as the code has it.  On a healthy connection, every stop of
    the cycle whose fetch gave a non-empty list has that list stored,
    serialized, under ["departures:" + stop_id] with expiry
    [FETCH_INTERVAL_SECONDS + 30]; for a stop whose fetch gave the
    empty list or failed nothing is written.  When every stop gives
    the empty list the cycle ends normally with the store untouched
    and both counters zero. *)
Theorem cache_holds_nonempty_departures (stop_ids : list string) (r : Redis) :
  faults r = [] → stop_ids ≠ [] →
  let c := fetch_nuremberg_stops_job api json_dumps FETCH_INTERVAL_SECONDS
             get_redis_conn stop_ids (Some r) in
  fetched c = stops_to_fetch stop_ids
  ∧ (∀ stop, stop ∈ stops_to_fetch stop_ids →
       match fetch_and_parse_departures api stop with
       | Some ((_ :: _) as departures) =>
           cached c (redis_key stop)
           = Some (json_dumps departures, FETCH_INTERVAL_SECONDS + 30)
       | Some [] | None => cached c (redis_key stop) = db r !! redis_key stop
       end)
  ∧ ((∀ stop, stop ∈ stops_to_fetch stop_ids →
        fetch_and_parse_departures api stop = Some []) →
     c = mkCycle (Some r) 0 0 (stops_to_fetch stop_ids)).
Proof.
  intros Hr Hne c. subst c. unfold fetch_nuremberg_stops_job.
  destruct stop_ids as [|s l]; [done|].
  split; [|split].
  - destruct (fetch_loop_healthy api json_dumps FETCH_INTERVAL_SECONDS
                (stops_to_fetch (s :: l)) r 0 0 [] Hr) as (r' & s' & t' & -> & _).
    done.
  - intros stop Hin.
    destruct (fetch_loop_healthy api json_dumps FETCH_INTERVAL_SECONDS
                (stops_to_fetch (s :: l)) r 0 0 [] Hr)
      as (r' & s' & t' & -> & _ & Hdb).
    unfold cached. cbn [redis_connection mbind option_bind]. rewrite Hdb.
    destruct (fetch_and_parse_departures api stop) as [[|d0 l0]|]; try done.
    by rewrite decide_True.
  - intros Hall. by rewrite fetch_loop_all_empty.
Qed.

End PollingClaims.

(** C7 as stated fails: an empty departure list is never written. *)
Lemma empty_list_stored_counterexample :
  ¬ (∀ (api : string → response) (json_dumps : list (gmap string json) → string)
       (interval : Z) (reconnect : option Redis) (stop_ids : list string)
       (r : Redis) (stop : string) (departures : list (gmap string json)),
       faults r = [] →
       let c := fetch_nuremberg_stops_job api json_dumps interval reconnect
                  stop_ids (Some r) in
       stop ∈ fetched c →
       fetch_and_parse_departures api stop = Some departures →
       cached c (redis_key stop) = Some (json_dumps departures, interval + 30)).
Proof.
  intros Hclaim.
  specialize (Hclaim silent_api count_dumps 60 None ["510"] fresh_redis "510" []).
  ospecialize* Hclaim; [done|by left|done|].
  vm_compute in Hclaim. discriminate Hclaim.
Qed.

(** ** Static query layer *)

Example route_type_names :
  route_type_name 1 = "Subway (U-Bahn)" ∧ route_type_name 9 = "Other/9".
Proof. split; reflexivity. Qed.

Example route_display_names :
  route_display_name (Some "U1") (Some "Langwasser - Fuerth") = "U1 (Langwasser - Fuerth)"
  ∧ route_display_name None None = ""
  ∧ route_display_name None (Some " ") = "".
Proof. repeat split; reflexivity. Qed.

Lemma get_stops_by_region_elsewhere (e : Engine) (region_name : string) :
  region_name ≠ "Nuremberg" →
  (∀ pattern, fruitless (stops_like e pattern)) →
  get_stops_by_region (Some e) region_name = [].
Proof.
  intros Hr Hq. unfold get_stops_by_region.
  destruct (prefix_map !! region_name) as [pattern|]; [|done].
  rewrite decide_False by done. by destruct (Hq pattern) as [-> | ->].
Qed.

Lemma get_stops_by_region_no_rows (e : Engine) :
  (∀ pattern, stops_like e pattern = Fetched []) →
  get_stops_by_region (Some e) "Nuremberg" = ["510"; "546"; "3151"].
Proof.
  intros Hq. unfold get_stops_by_region.
  assert (Hmap : prefix_map !! "Nuremberg" = Some "de:09564:%") by reflexivity.
  rewrite Hmap, Hq. by rewrite decide_True.
Qed.

(** C8, as the code has it.  No function of the layer raises.  Without
    an engine each returns its empty result: the all-['N/A'] stats, an
    empty frame, an empty list.  With an engine whose statement fails
    or gives no rows the four frame functions return an empty frame;
    the overview keeps ['N/A'] for every count from the failing
    statement on and reports 0 for a count without a value;
    [get_stops_by_region] returns the empty list for every region
    other than Nuremberg, and for Nuremberg, when the statement gives
    no rows, the three numeric ids it adds. *)
Theorem static_queries_empty_results :
  (get_overview_stats None = placeholder_stats
   ∧ get_route_type_counts None = []
   ∧ (∀ top_n, get_top_routes_by_trips None top_n = [])
   ∧ get_all_stops_locations None = []
   ∧ get_stop_list None = []
   ∧ ∀ region_name, get_stops_by_region None region_name = [])
  ∧ (∀ e : Engine,
       (fruitless (route_type_rows e) → get_route_type_counts (Some e) = [])
       ∧ (∀ top_n, fruitless (top_route_rows e top_n) →
            get_top_routes_by_trips (Some e) top_n = [])
       ∧ (fruitless (stop_location_rows e) → get_all_stops_locations (Some e) = [])
       ∧ (fruitless (stop_list_rows e) → get_stop_list (Some e) = [])
       ∧ (count_routes e = Failed → get_overview_stats (Some e) = placeholder_stats)
       ∧ (count_stops e = Failed →
            get_overview_stats (Some e) !! "total_stops" = Some NotAvailable
            ∧ get_overview_stats (Some e) !! "total_trips" = Some NotAvailable)
       ∧ (count_trips e = Failed →
            get_overview_stats (Some e) !! "total_trips" = Some NotAvailable)
       ∧ (count_routes e = Fetched None →
            get_overview_stats (Some e) !! "total_routes" = Some (Count 0))
       ∧ (∀ region_name,
            region_name ≠ "Nuremberg" →
            (∀ pattern, fruitless (stops_like e pattern)) →
            get_stops_by_region (Some e) region_name = [])
       ∧ ((∀ pattern, stops_like e pattern = Fetched []) →
            get_stops_by_region (Some e) "Nuremberg" = ["510"; "546"; "3151"])).
Proof.
  split; [done|]. intros e.
  split; [by intros [H | H]; unfold get_route_type_counts; rewrite H|].
  split; [by intros top_n [H | H]; unfold get_top_routes_by_trips; rewrite H|].
  split; [by intros [H | H]; unfold get_all_stops_locations; rewrite H|].
  split; [by intros [H | H]; unfold get_stop_list; rewrite H|].
  split; [by intros H; unfold get_overview_stats; rewrite H|].
  split; [|split; [|split; [|split]]].
  - intros H. unfold get_overview_stats. rewrite H.
    by destruct (count_routes e).
  - intros H. unfold get_overview_stats. rewrite H.
    by destruct (count_routes e), (count_stops e).
  - intros H. unfold get_overview_stats. rewrite H.
    by destruct (count_stops e), (count_trips e).
  - intros region_name. apply get_stops_by_region_elsewhere.
  - apply get_stops_by_region_no_rows.
Qed.

(** C8 as stated fails: for the region Nuremberg a statement that
    gives no rows still yields the three numeric stop ids, which the
    function adds to whatever the statement gave. *)
Lemma stops_by_region_counterexample :
  ¬ (∀ (e : Engine) (region_name : string),
       (∀ pattern, stops_like e pattern = Fetched []) →
       get_stops_by_region (Some e) region_name = []).
Proof.
  intros Hclaim.
  specialize (Hclaim empty_engine "Nuremberg" (λ _, eq_refl)).
  vm_compute in Hclaim. discriminate Hclaim.
Qed.

(** ** The theorems at concrete inputs *)

(** C1 on a cache with two departures, 90 and 30 seconds late. *)
Lemma delay_minutes_rounded_difference_witness :
  get_regional_departures_df epoch_seconds sample_loads strict_frame
    (Some sample_cache) ["510"]
  = Return (regional_frame epoch_seconds two_departures)
  ∧ get_live_departures_for_stop epoch_seconds sample_loads strict_frame
      (Some sample_cache) "510"
    = Return (regional_frame epoch_seconds two_departures)
  ∧ mkRow (departure (JNum 0) (JNum 90)) None None (Some 2)
    ∈ rows (regional_frame epoch_seconds two_departures)
  ∧ ∀ row, row ∈ rows (regional_frame epoch_seconds two_departures) →
      source row ∈ two_departures.
Proof.
  destruct (delay_minutes_rounded_difference epoch_seconds sample_loads strict_frame)
    as (Hregional & _ & Hlive & Hdelay & Hrows).
  split; [|split; [|split]].
  - etrans; [apply (Hregional sample_cache ["510"] [Some "payload"]); reflexivity|].
    reflexivity.
  - apply (Hlive sample_cache "510" "payload" two_departures);
      [reflexivity | discriminate | reflexivity].
  - apply (Hdelay two_departures (departure (JNum 0) (JNum 90)) 0 90);
      [left | reflexivity | reflexivity].
  - intros row Hrow. apply (Hrows two_departures row Hrow).
Defined.

(** C5 on a timeout, on a body without the field, and on one sparse
    raw departure. *)
Lemma fetch_fails_closed_witness :
  fetch_and_parse_departures timing_out_api "510" = None
  ∧ fetch_and_parse_departures silent_api "510" = Some []
  ∧ ∃ parsed record,
      fetch_and_parse_departures sparse_api "510" = Some parsed
      ∧ parsed !! 0%nat = Some record
      ∧ record !! "line" = Some (JStr "U1")
      ∧ record !! "platform" = Some JNull.
Proof.
  split; [|split].
  - apply (fetch_fails_closed timing_out_api "510"). left. reflexivity.
  - apply (fetch_fails_closed silent_api "510") with (raw_data := ∅); reflexivity.
  - destruct (fetch_fails_closed sparse_api "510") as (_ & _ & Hparsed).
    destruct (Hparsed {[ "Abfahrten" := JArr [ JObj {[ "Linienname" := JStr "U1" ]} ] ]}
                [ {[ "Linienname" := JStr "U1" ]} ] eq_refl eq_refl)
      as (parsed & Hresult & _ & Hrecords).
    destruct (Hrecords 0%nat {[ "Linienname" := JStr "U1" ]} eq_refl)
      as (record & Hrecord & _ & Hfields).
    exists parsed, record. split; [exact Hresult|]. split; [exact Hrecord|].
    split.
    + apply (Hfields "line" "Linienname"). left.
    + apply (Hfields "platform" "HaltesteigText"). do 4 right. left.
Defined.

(** C6 on a GTFS id and on a numeric id. *)
Lemma stop_id_normalised_witness :
  numeric_stop_id "de:09564:510:11:1" = "510"
  ∧ numeric_stop_id "3151" = "3151"
  ∧ fetch_and_parse_departures silent_api "3151"
    = fetch_and_parse_departures (λ _, Body (JObj ∅)) "3151".
Proof.
  split; [|split].
  - destruct (stop_id_normalised "de:09564:510:11:1") as (Hcompound & _ & _).
    destruct Hcompound as (segment & Hsegment & Hnumeric & _).
    + exists ["09564"; "510"; "11"; "1"]. split; [reflexivity | cbn; lia].
    + rewrite Hnumeric. injection Hsegment as Hsegment. symmetry. exact Hsegment.
  - destruct (stop_id_normalised "3151") as (_ & Hbare & _).
    apply Hbare. intros (rest & Hsplit & _). discriminate Hsplit.
  - apply (stop_id_normalised "3151"). reflexivity.
Defined.

(** C7 on a cycle over one stop with a healthy connection. *)
Lemma cache_holds_nonempty_departures_witness :
  cached (fetch_nuremberg_stops_job sparse_api count_dumps 60 None ["510"]
            (Some fresh_redis)) (redis_key "510")
  = Some ("1", 90).
Proof.
  destruct (cache_holds_nonempty_departures sparse_api count_dumps 60 None
              ["510"] fresh_redis eq_refl) as (_ & Hstored & _).
  - discriminate.
  - apply (Hstored "510"). left.
Defined.

(** C9 on the stops monitored over an engine with one platform. *)
Lemma fetched_stops_prioritised_and_capped_witness :
  fetched (fetch_nuremberg_stops_job sparse_api count_dumps 60 None
             sample_stop_ids (Some fresh_redis))
  ⊆+ sample_stop_ids.
Proof.
  apply (fetched_stops_prioritised_and_capped sparse_api count_dumps 60 None
           one_stop_engine sample_stop_ids (Some fresh_redis)).
  split.
  - apply (bool_decide_unpack _). vm_compute. exact I.
  - intros s. unfold monitored_stops. rewrite elem_of_list_to_set.
    change (get_stops_by_region (Some one_stop_engine) REGION_NAME ++ fallback_ids)
      with [ "de:09564:704:11:1"; "510"; "546"; "3151"; "546"; "510"; "511";
             "512"; "513"; "514"; "515" ].
    unfold sample_stop_ids. rewrite !elem_of_cons, !elem_of_nil. tauto.
Defined.

(** C8 on an engine whose every statement fails, and on empty tables. *)
Lemma static_queries_empty_results_witness :
  get_route_type_counts (Some failing_engine) = []
  ∧ get_overview_stats (Some failing_engine) = placeholder_stats
  ∧ get_stops_by_region (Some failing_engine) "Erlangen" = []
  ∧ get_stops_by_region (Some empty_engine) "Nuremberg" = ["510"; "546"; "3151"].
Proof.
  destruct static_queries_empty_results as (_ & Hengine).
  destruct (Hengine failing_engine)
    as (Hroutes & _ & _ & _ & Hstats & _ & _ & _ & Hregion & _).
  destruct (Hengine empty_engine) as (_ & _ & _ & _ & _ & _ & _ & _ & _ & Hnuremberg).
  split; [|split; [|split]].
  - apply Hroutes. left. reflexivity.
  - apply Hstats. reflexivity.
  - apply (Hregion "Erlangen"); [discriminate|]. intros pattern. left. reflexivity.
  - apply Hnuremberg. reflexivity.
Defined.

(** C10 on the frame of two departures, one of them on time. *)
Lemma kpis_shape_witness :
  ∃ pct : Q,
    (calculate_regional_kpis (regional_frame epoch_seconds two_departures)).1
      !! "on_time_percent" = Some (VFloat pct)
    ∧ (0 <= pct <= 100)%Q.
Proof.
  destruct (kpis_shape (regional_frame epoch_seconds two_departures))
    as (_ & _ & (valid & Hvalid & _ & Hpct) & _).
  apply Hpct. vm_compute in Hvalid. injection Hvalid as <-. reflexivity.
Defined.


(** * Further properties *)

(** ** Delay arithmetic *)

Lemma round_half_even_whole (k : Z) : round_half_even (60 * k) 60 = k.
Proof.
  unfold round_half_even.
  replace (60 * k) with (k * 60) by lia.
  rewrite Z.div_mul, Z.mod_mul by lia. done.
Qed.

Lemma round_half_even_mono (n m : Z) :
  n ≤ m → round_half_even n 60 ≤ round_half_even m 60.
Proof.
  intros Hnm. unfold round_half_even.
  pose proof (Z.div_mod n 60 ltac:(lia)) as Hn.
  pose proof (Z.mod_pos_bound n 60 ltac:(lia)) as Hbn.
  pose proof (Z.div_mod m 60 ltac:(lia)) as Hm.
  pose proof (Z.mod_pos_bound m 60 ltac:(lia)) as Hbm.
  assert (Hq : n / 60 ≤ m / 60) by (apply Z.div_le_mono; lia).
  destruct (decide (n / 60 = m / 60)) as [Heq|Hne].
  - rewrite <- Heq in *. repeat case_match; lia.
  - repeat case_match; lia.
Qed.

Lemma round_half_even_opp (n : Z) :
  round_half_even (- n) 60 = - round_half_even n 60.
Proof.
  unfold round_half_even.
  pose proof (Z.div_mod n 60 ltac:(lia)) as Hn.
  pose proof (Z.mod_pos_bound n 60 ltac:(lia)) as Hbn.
  set (q := n / 60) in *. set (r := n mod 60) in *.
  destruct (decide (r = 0)) as [Hr|Hr].
  - assert (Hq' : (- n) / 60 = - q) by (symmetry; apply (Z.div_unique _ _ _ 0); lia).
    assert (Hr' : (- n) mod 60 = 0) by (symmetry; apply (Z.mod_unique _ _ (- q)); lia).
    rewrite Hq', Hr', Hr. done.
  - assert (Hq' : (- n) / 60 = - q - 1)
      by (symmetry; apply (Z.div_unique _ _ _ (60 - r)); lia).
    assert (Hr' : (- n) mod 60 = 60 - r)
      by (symmetry; apply (Z.mod_unique _ _ (- q - 1)); lia).
    rewrite Hq', Hr'.
    assert (Hev : Z.even (- q - 1) = negb (Z.even q)).
    { rewrite Z.even_sub, Z.even_opp. by destruct (Z.even q). }
    rewrite Hev. destruct (Z.even q); cbn [negb]; repeat case_match; lia.
Qed.

(** X1.  The delay of a row is exact on whole minutes, never decreases
    when the actual time grows, and changes sign when the two times
    are exchanged. *)
Theorem delay_whole_monotone_symmetric (src : gmap string json) (s a : Z) :
  let delay a s := delay_of_row (mkRow src (Some s) (Some a) None) in
  (∀ k, delay (s + 60 * k) s = Some k)
  ∧ (∀ a', a ≤ a' →
       ∃ d d', delay a s = Some d ∧ delay a' s = Some d' ∧ d ≤ d')
  ∧ (∃ d, delay a s = Some d ∧ delay s a = Some (- d)).
Proof.
  intros delay. subst delay. unfold delay_of_row. cbn [actual_dt scheduled_dt].
  split; [|split].
  - intros k. f_equal. rewrite <- (round_half_even_whole k) at 2. f_equal. lia.
  - intros a' Ha. eexists _, _. split; [done|]. split; [done|].
    apply round_half_even_mono. lia.
  - eexists. split; [done|]. f_equal.
    rewrite <- round_half_even_opp. f_equal. lia.
Qed.

(** X2.  A departure is on time, its delay within the two thresholds,
    exactly when it leaves less than 90 seconds early and less than
    210 seconds late: at -90 and at 210 seconds the tie goes to the
    even minute, -2 and 4. *)
Theorem on_time_window_in_seconds (r : Row) (s a d : Z) :
  scheduled_dt r = Some s → actual_dt r = Some a → delay_of_row r = Some d →
  (ON_TIME_THRESHOLD_MINUTES_LOW ≤ d ≤ ON_TIME_THRESHOLD_MINUTES_HIGH
   ↔ -90 < a - s < 210).
Proof.
  intros Hs Ha. unfold delay_of_row. rewrite Hs, Ha. intros [= <-].
  unfold ON_TIME_THRESHOLD_MINUTES_LOW, ON_TIME_THRESHOLD_MINUTES_HIGH,
    round_half_even.
  pose proof (Z.div_mod (a - s) 60 ltac:(lia)) as Hdm.
  pose proof (Z.mod_pos_bound (a - s) 60 ltac:(lia)) as Hb.
  set (q := (a - s) / 60) in *. set (r0 := (a - s) mod 60) in *.
  destruct (2 * r0 <? 60) eqn:E1; [lia|].
  destruct (60 <? 2 * r0) eqn:E2; [lia|].
  destruct (Z.even q) eqn:Ev.
  - apply Z.even_spec in Ev as [k Hk]. lia.
  - apply (f_equal negb) in Ev. rewrite Z.negb_even in Ev.
    apply Z.odd_spec in Ev as [k Hk]. lia.
Qed.

Lemma on_time_window_in_seconds_witness :
  ON_TIME_THRESHOLD_MINUTES_LOW ≤ 3 ≤ ON_TIME_THRESHOLD_MINUTES_HIGH
  ↔ -90 < 209 - 0 < 210.
Proof.
  apply (on_time_window_in_seconds (mkRow ∅ (Some 0) (Some 209) None) 0 209 3);
    reflexivity.
Defined.

Lemma delay_whole_monotone_symmetric_witness :
  ∃ d d', delay_of_row (mkRow ∅ (Some 0) (Some 29) None) = Some d
          ∧ delay_of_row (mkRow ∅ (Some 0) (Some 31) None) = Some d'
          ∧ d ≤ d'.
Proof.
  destruct (delay_whole_monotone_symmetric ∅ 0 29) as (_ & Hmono & _).
  apply (Hmono 31). lia.
Defined.

(** ** Readers *)

Section ReaderFacts.

Variable to_datetime : json → option Z.
Variable json_loads : string → option json.
Variable irregular_frame : json → option DataFrame.

(** X3.  The readers raise nothing but a connection error: the regional
    reader exactly when it has a connection and a non-empty stop list
    and the MGET raises one, the single-stop reader exactly when it has
    a connection and the GET raises one.  Any other failure ends in a
    frame. *)
Theorem readers_raise_only_connection_errors (conn : option Redis)
    (stop_ids : list string) (stop_id : string) :
  let dead := ∃ r rest, conn = Some r ∧ faults r = Some ConnectionError :: rest in
  get_regional_departures_df to_datetime json_loads irregular_frame conn stop_ids
  ≠ Raise OtherError
  ∧ get_live_departures_for_stop to_datetime json_loads irregular_frame conn stop_id
    ≠ Raise OtherError
  ∧ (get_regional_departures_df to_datetime json_loads irregular_frame conn stop_ids
     = Raise ConnectionError ↔ stop_ids ≠ [] ∧ dead)
  ∧ (get_live_departures_for_stop to_datetime json_loads irregular_frame conn stop_id
     = Raise ConnectionError ↔ dead).
Proof.
  intros dead. subst dead.
  unfold get_regional_departures_df, get_live_departures_for_stop,
    redis_mget, redis_get.
  destruct conn as [r|].
  2: { repeat split; try done; naive_solver. }
  destruct (faults r) as [|[[|]|] rest] eqn:Hf.
  - repeat split; try (by destruct stop_ids); try (by repeat case_match).
    + intros (_ & ? & ? & ? & ?); simplify_eq; congruence.
    + intros (? & ? & ? & ?); simplify_eq; congruence.
  - repeat split; try (by destruct stop_ids); try done.
    + by exists r, rest.
    + intros [Hne _]. by destruct stop_ids.
    + by exists r, rest.
  - repeat split; try (by destruct stop_ids); try done.
    + intros (_ & ? & ? & ? & ?); simplify_eq; congruence.
    + intros (? & ? & ? & ?); simplify_eq; congruence.
  - repeat split; try (by destruct stop_ids); try (by repeat case_match).
    + intros (_ & ? & ? & ? & ?); simplify_eq; congruence.
    + intros (? & ? & ? & ?); simplify_eq; congruence.
Qed.

Lemma live_frame_records (r : Redis) (stop_id data_string : string) (expiry : Z)
    (records : list (gmap string json)) :
  faults r = [] →
  db r !! redis_key stop_id = Some (data_string, expiry) →
  data_string ≠ "" →
  json_loads data_string = Some (JArr (JObj <$> records)) →
  get_live_departures_for_stop to_datetime json_loads irregular_frame (Some r) stop_id
  = Return (regional_frame to_datetime records).
Proof.
  intros Hr Hdb Hne Hloads. unfold get_live_departures_for_stop, redis_get.
  rewrite Hr, Hdb. cbn [fmap option_fmap option_map fst].
  rewrite decide_False, Hloads by done.
  destruct records as [|record records]; [done|].
  cbn [truthy fmap list_fmap length]. rewrite bool_decide_eq_false_2 by done.
  cbn [negb]. f_equal.
  apply (combined_frame_records to_datetime irregular_frame (record :: records)).
Qed.

Lemma live_frame_healthy (r : Redis) (stop_id : string) :
  faults r = [] →
  holds_record_lists json_loads r [stop_id] →
  get_live_departures_for_stop to_datetime json_loads irregular_frame (Some r) stop_id
  = Return (regional_frame to_datetime (cached_records json_loads r stop_id)).
Proof.
  intros Hr Hlists. unfold cached_records.
  destruct (db r !! redis_key stop_id) as [[data_string expiry]|] eqn:Hdb.
  2: { unfold get_live_departures_for_stop, redis_get. by rewrite Hr, Hdb. }
  case_decide as Hs.
  { unfold get_live_departures_for_stop, redis_get. rewrite Hr, Hdb.
    cbn [fmap option_fmap option_map fst]. by rewrite decide_True. }
  destruct (json_loads data_string) as [value|] eqn:Hloads.
  - destruct (Hlists stop_id data_string expiry value ltac:(left) Hdb Hloads)
      as [records ->].
    rewrite objects_records. cbn [default from_option id].
    by eapply live_frame_records.
  - unfold get_live_departures_for_stop, redis_get. rewrite Hr, Hdb.
    cbn [fmap option_fmap option_map fst]. by rewrite decide_False, Hloads.
Qed.

Lemma collect_cached_records (r : Redis) (stop_ids : list string) :
  holds_record_lists json_loads r stop_ids →
  collect_departures json_loads ((λ k, fst <$> db r !! k) <$> (redis_key <$> stop_ids))
  = JObj <$> concat (cached_records json_loads r <$> stop_ids).
Proof.
  induction stop_ids as [|stop_id rest IH]; intros Hlists; [done|].
  assert (Hrest : holds_record_lists json_loads r rest).
  { intros i s e v Hi. apply Hlists. by right. }
  rewrite !fmap_cons. cbn [collect_departures concat]. rewrite fmap_app, <- (IH Hrest).
  unfold cached_records at 1.
  destruct (db r !! redis_key stop_id) as [[data_string expiry]|] eqn:Hdb;
    cbn [fmap option_fmap option_map fst]; [|done].
  case_decide; [done|].
  destruct (json_loads data_string) as [value|] eqn:Hloads; [|done].
  destruct (Hlists stop_id data_string expiry value ltac:(left) Hdb Hloads)
    as [records ->].
  by rewrite objects_records.
Qed.

Lemma record_delays_concat (chunks : list (list (gmap string json))) :
  omap (M := list) (record_delay to_datetime) (concat chunks)
  = concat (omap (M := list) (record_delay to_datetime) <$> chunks).
Proof.
  induction chunks as [|chunk chunks IH]; [done|].
  cbn [concat fmap list_fmap]. by rewrite omap_app, IH.
Qed.

(** X4.  On a healthy connection to a cache that holds lists of
    records, the delays of a region are the delays of its stops, stop
    after stop in the order of the stop list: the regional reader and
    the single-stop reader agree there. *)
Theorem regional_delays_are_stop_delays (r : Redis) (stop_ids : list string) :
  faults r = [] →
  holds_record_lists json_loads r stop_ids →
  ∃ df,
    get_regional_departures_df to_datetime json_loads irregular_frame (Some r) stop_ids
    = Return df
    ∧ defined_delays df
      = concat ((λ stop_id,
                   defined_delays
                     (frame_or_empty
                        (get_live_departures_for_stop to_datetime json_loads
                           irregular_frame (Some r) stop_id))) <$> stop_ids).
Proof.
  intros Hr Hlists.
  exists (regional_frame to_datetime (concat (cached_records json_loads r <$> stop_ids))).
  split.
  - unfold get_regional_departures_df, redis_mget. rewrite Hr.
    destruct stop_ids as [|stop_id rest]; [done|].
    rewrite (collect_cached_records r (stop_id :: rest) Hlists).
    by rewrite combined_frame_records.
  - rewrite regional_frame_defined_delays, record_delays_concat.
    rewrite <- list_fmap_compose. f_equal. apply list_fmap_ext.
    intros i stop_id Hin. apply list_elem_of_lookup_2 in Hin. unfold compose.
    rewrite live_frame_healthy; [|done|].
    + cbn [frame_or_empty]. by rewrite regional_frame_defined_delays.
    + intros stop s e v Hi. apply list_elem_of_singleton in Hi as ->. by apply Hlists.
Qed.

Lemma reader_frame_empty (records : list (gmap string json)) :
  pd.empty (regional_frame to_datetime records)
  = bool_decide (rows (regional_frame to_datetime records) = []).
Proof.
  destruct records as [|d l]; [done|].
  unfold regional_frame, pd.empty.
  pose proof (calculate_delay_columns to_datetime (pd.DataFrame_of (d :: l))) as Hc.
  destruct (rows _); [done|].
  rewrite bool_decide_eq_false_2 by set_solver.
  by rewrite bool_decide_eq_false_2.
Qed.

(** X5.  In a frame a reader returns the two temporary time columns
    are gone, the delay column is there whenever a record was cached,
    and either every row has a delay or no row has one. *)
Theorem reader_frame_delays_all_or_none (records : list (gmap string json)) :
  let df := regional_frame to_datetime records in
  (∀ row, row ∈ rows df → scheduled_dt row = None ∧ actual_dt row = None)
  ∧ (records ≠ [] → "delay_minutes" ∈ columns df)
  ∧ ((∀ row, row ∈ rows df → is_Some (delay_minutes row))
     ∨ (∀ row, row ∈ rows df → delay_minutes row = None)).
Proof.
  intros df. subst df.
  assert (Hcases :
    (∀ row, row ∈ rows (regional_frame to_datetime records) →
       scheduled_dt row = None ∧ actual_dt row = None ∧ is_Some (delay_minutes row))
    ∨ (∀ row, row ∈ rows (regional_frame to_datetime records) →
       scheduled_dt row = None ∧ actual_dt row = None ∧ delay_minutes row = None)).
  { rewrite regional_frame_rows. case_decide.
    - left. intros row Hrow. apply list_elem_of_omap in Hrow as (r0 & _ & Hann).
      apply annotate_source in Hann as (s & a & _ & _ & ->). cbn. eauto.
    - right. intros row Hrow. unfold pd.DataFrame_of in Hrow. cbn [rows] in Hrow.
      by apply list_elem_of_fmap in Hrow as (rec & -> & _). }
  split; [|split].
  - intros row Hrow. destruct Hcases as [H | H]; by destruct (H row Hrow) as (? & ? & _).
  - intros Hne. destruct records as [|d l]; [done|]. apply calculate_delay_columns.
  - destruct Hcases as [H | H]; [left|right]; intros row Hrow;
      by destruct (H row Hrow) as (_ & _ & ?).
Qed.

(** X6.  On the frames the readers return, the dashboard's KPI wrapper
    gives what [calculate_regional_kpis] gives; its distribution
    wrapper gives a frame without rows when the reader's frame has no
    rows, where [get_regional_delay_distribution] gives its four
    labels, and agrees with it otherwise. *)
Theorem dashboard_wrappers_on_reader_frames (records : list (gmap string json)) :
  let df := regional_frame to_datetime records in
  compute_regional_kpis df = (calculate_regional_kpis df).1
  ∧ compute_regional_distribution df
    = match rows df with
      | [] => []
      | _ :: _ => get_regional_delay_distribution df
      end
  ∧ length (get_regional_delay_distribution df) = 4%nat.
Proof.
  intros df. subst df.
  unfold compute_regional_kpis, compute_regional_distribution.
  rewrite reader_frame_empty.
  split; [|split].
  - case_bool_decide as Hrows; [|done].
    unfold calculate_regional_kpis, pd.empty, pd.len. rewrite Hrows. done.
  - by destruct (rows _).
  - unfold get_regional_delay_distribution. repeat case_match; done.
Qed.

End ReaderFacts.

Lemma readers_raise_only_connection_errors_witness :
  get_regional_departures_df epoch_seconds sample_loads strict_frame
    (Some dead_redis) ["510"]
  = Raise ConnectionError.
Proof.
  destruct (readers_raise_only_connection_errors epoch_seconds sample_loads
              strict_frame (Some dead_redis) ["510"] "510")
    as (_ & _ & [_ Hraise] & _).
  apply Hraise. split; [discriminate|]. exists dead_redis, []. split; reflexivity.
Defined.

Lemma regional_delays_are_stop_delays_witness :
  ∃ df,
    get_regional_departures_df epoch_seconds sample_loads strict_frame
      (Some sample_cache) ["510"; "546"] = Return df
    ∧ defined_delays df = [2; 0].
Proof.
  destruct (regional_delays_are_stop_delays epoch_seconds sample_loads strict_frame
              sample_cache ["510"; "546"] eq_refl) as (df & Hdf & Hdelays).
  - intros stop_id data_string expiry value _ _ Hloads.
    exists two_departures. injection Hloads as <-. reflexivity.
  - exists df. split; [exact Hdf|]. rewrite Hdelays. reflexivity.
Defined.

Lemma reader_frame_delays_all_or_none_witness :
  "delay_minutes" ∈ columns (regional_frame epoch_seconds one_unparseable).
Proof.
  apply (reader_frame_delays_all_or_none epoch_seconds one_unparseable).
  discriminate.
Defined.

(** ** KPIs and distribution together *)

Lemma delay_distribution_rows (df : DataFrame) :
  get_regional_delay_distribution df
  = [ ("< -1m (Early)", Z.of_nat (length (filter (λ d, d ≤ -2) (defined_delays df))));
      ("-1m to +3m (On Time)",
       Z.of_nat (length (filter (λ d, -1 ≤ d ≤ 3) (defined_delays df))));
      ("+4m to +10m (Late)",
       Z.of_nat (length (filter (λ d, 4 ≤ d ≤ 10) (defined_delays df))));
      ("> +10m (Very Late)",
       Z.of_nat (length (filter (λ d, 11 ≤ d) (defined_delays df)))) ].
Proof.
  unfold get_regional_delay_distribution.
  destruct (pd.empty df || _) eqn:He.
  { by rewrite (defined_delays_early df He). }
  rewrite (defined_delays_late df He).
  destruct (pd.dropna (pd.delay_series df)) as [|d l]; [done|].
  generalize (d :: l). clear. intros valid.
  unfold value_counts.
  rewrite (aligned_counts (λ c, Z.of_nat (length (filter (λ x, x = Some c)
             (cut DELAY_BUCKET_BINS DELAY_BUCKET_LABELS <$> valid))))).
  rewrite labels_as_printed at 1. cbn [fmap list_fmap].
  repeat f_equal; apply count_category; intros x; rewrite cut_bucket;
    repeat case_match; split; intros; simplify_eq; try done; lia.
Qed.

(** X7.  The KPIs and the distribution of one frame agree: the four
    bucket counts add up to [valid_delay_count], and [on_time_percent]
    is 100 times the count of the on-time bucket divided by that sum. *)
Theorem kpis_agree_with_distribution (df : DataFrame) :
  let kpis := (calculate_regional_kpis df).1 in
  ∃ early on_time_count late very_late : Z,
    (get_regional_delay_distribution df).*2
    = [early; on_time_count; late; very_late]
    ∧ kpis !! "valid_delay_count"
      = Some (VInt (early + on_time_count + late + very_late))
    ∧ (0 < early + on_time_count + late + very_late →
       ∃ pct : Q,
         kpis !! "on_time_percent" = Some (VFloat pct)
         ∧ (pct == 100 * inject_Z on_time_count
                   / inject_Z (early + on_time_count + late + very_late))%Q).
Proof.
  intros kpis. subst kpis. rewrite delay_distribution_rows.
  exists (Z.of_nat (length (filter (λ d, d ≤ -2) (defined_delays df)))),
         (Z.of_nat (length (filter (λ d, -1 ≤ d ≤ 3) (defined_delays df)))),
         (Z.of_nat (length (filter (λ d, 4 ≤ d ≤ 10) (defined_delays df)))),
         (Z.of_nat (length (filter (λ d, 11 ≤ d) (defined_delays df)))).
  split; [reflexivity|].
  pose proof (buckets_partition (defined_delays df)) as Hsum.
  rewrite Hsum. split; [apply kpis_valid_delay_count|].
  intros Hpos.
  destruct (kpis_cases df) as [[He _] | (d & l & He & ->)].
  - rewrite He in Hpos. cbn in Hpos. lia.
  - rewrite He. eexists. split; [done|].
    apply percent_reordered. cbn [length]. lia.
Qed.

Lemma kpis_agree_with_distribution_witness :
  ∃ pct : Q,
    (calculate_regional_kpis (regional_frame epoch_seconds two_departures)).1
      !! "on_time_percent" = Some (VFloat pct)
    ∧ (pct == 100 * inject_Z 2 / inject_Z 2)%Q.
Proof.
  destruct (kpis_agree_with_distribution (regional_frame epoch_seconds two_departures))
    as (early & on_time_count & late & very_late & Hdist & _ & Hpct).
  vm_compute in Hdist. injection Hdist as <- <- <- <-.
  apply Hpct. reflexivity.
Defined.

Lemma sum_between (lo hi : Z) (l : list Z) :
  (∀ d, d ∈ l → lo ≤ d ≤ hi) →
  lo * Z.of_nat (length l) ≤ foldr Z.add 0 l ≤ hi * Z.of_nat (length l).
Proof.
  induction l as [|x l IH]; intros Hall; [cbn; lia|].
  cbn [foldr length].
  pose proof (Hall x ltac:(left)).
  specialize (IH (λ d Hd, Hall d ltac:(by right))). lia.
Qed.

(** X8.  The average delay lies between any two bounds that hold for
    every defined delay: in particular between the smallest and the
    largest delay of the frame. *)
Theorem avg_delay_between_bounds (df : DataFrame) (lo hi : Z) :
  defined_delays df ≠ [] →
  (∀ d, d ∈ defined_delays df → lo ≤ d ≤ hi) →
  ∃ avg : Q,
    (calculate_regional_kpis df).1 !! "avg_delay" = Some (VFloat avg)
    ∧ (inject_Z lo <= avg <= inject_Z hi)%Q.
Proof.
  intros Hne Hall.
  destruct (kpis_cases df) as [[He _] | (d & l & He & ->)]; [done|].
  eexists. split; [done|].
  rewrite He in Hall. apply sum_between in Hall.
  unfold mean. generalize dependent (foldr Z.add 0 (d :: l)). intros total Hall.
  cbn [length] in *.
  destruct (Z.of_nat (S (length l))) as [|p|p] eqn:Hn; try lia.
  unfold Qdiv, Qinv, Qmult, Qle, inject_Z. cbn.
  rewrite ?Pos.mul_1_l, ?Pos.mul_1_r. lia.
Qed.

Lemma avg_delay_between_bounds_witness :
  ∃ avg : Q,
    (calculate_regional_kpis (regional_frame epoch_seconds two_departures)).1
      !! "avg_delay" = Some (VFloat avg)
    ∧ (inject_Z 0 <= avg <= inject_Z 2)%Q.
Proof.
  apply (avg_delay_between_bounds (regional_frame epoch_seconds two_departures) 0 2).
  - vm_compute. discriminate.
  - intros d Hd. vm_compute in Hd.
    apply elem_of_cons in Hd as [-> | Hd]; [lia|].
    apply elem_of_cons in Hd as [-> | Hd]; [lia|].
    by apply elem_of_nil in Hd.
Defined.

(** ** Departure fetcher, again *)

Lemma split_part_whole (sep : ascii) (s p : string) :
  p ∈ split sep s → split sep p = [p].
Proof.
  revert p. induction s as [|c s IH]; intros p Hp.
  { apply list_elem_of_singleton in Hp as ->. done. }
  rewrite split_cons in Hp. case_decide as Hc.
  - apply elem_of_cons in Hp as [-> | Hp]; [done|by apply IH].
  - pose proof (split_nonempty sep s) as Hne.
    destruct (split sep s) as [|part parts] eqn:Hs; [done|].
    cbn [hd tl] in Hp. apply elem_of_cons in Hp as [-> | Hp].
    + rewrite split_cons, decide_False by done.
      rewrite (IH part) by left. done.
    + apply IH. by right.
Qed.

(** X9.  Converting a stop id twice is converting it once, and the
    numeric id taken out of a compound id contains no colon. *)
Theorem numeric_stop_id_idempotent (stop_id : string) :
  numeric_stop_id (numeric_stop_id stop_id) = numeric_stop_id stop_id
  ∧ (compound_form stop_id →
     split ":" (numeric_stop_id stop_id) = [numeric_stop_id stop_id]).
Proof.
  assert (Hpart : ∀ p, split ":" p = [p] → numeric_stop_id p = p).
  { intros p Hp. unfold numeric_stop_id. rewrite Hp.
    destruct (String.prefix "de:" p); [|done]. by rewrite decide_False by (cbn; lia). }
  assert (Hdec : compound_form stop_id ∨ ¬ compound_form stop_id).
  { rewrite compound_form_checked.
    destruct (String.prefix "de:" stop_id);
      destruct (decide (4 ≤ length (split ":" stop_id))%nat); naive_solver. }
  destruct Hdec as [Hc | Hc].
  - pose proof Hc as (rest & Hs & Hlen).
    apply compound_form_checked in Hc as [Hp Hl].
    assert (Hseg : split ":" (numeric_stop_id stop_id) = [numeric_stop_id stop_id]).
    { unfold numeric_stop_id at 1 2. rewrite Hp, decide_True by done.
      destruct (split ":" stop_id !! 2%nat) as [segment|] eqn:Hseg.
      - cbn [default from_option id]. eapply split_part_whole.
        by eapply list_elem_of_lookup_2.
      - apply lookup_ge_None in Hseg. lia. }
    split; [by apply Hpart|done].
  - split; [|done].
    assert (Hn : numeric_stop_id stop_id = stop_id).
    { unfold numeric_stop_id. destruct (String.prefix "de:" stop_id) eqn:Hp; [|done].
      case_decide as Hl; [|done]. exfalso. apply Hc.
      by apply compound_form_checked. }
    by rewrite !Hn.
Qed.

Lemma numeric_stop_id_idempotent_witness :
  split ":" (numeric_stop_id "de:09564:510:11:1")
  = [numeric_stop_id "de:09564:510:11:1"].
Proof.
  apply (numeric_stop_id_idempotent "de:09564:510:11:1").
  exists ["09564"; "510"; "11"; "1"]. split; [reflexivity | cbn; lia].
Defined.

Lemma parse_departures_inr (raw_departures : list json)
    (parsed : list (gmap string json)) :
  parse_departures raw_departures = inr parsed →
  length parsed = length raw_departures
  ∧ (∀ v, v ∈ raw_departures → ∃ m, v = JObj m)
  ∧ ∀ record, record ∈ parsed → dom record = list_to_set FIELDS.*1.
Proof.
  revert parsed. induction raw_departures as [|v l IH]; intros parsed Hp.
  { injection Hp as <-. split; [done|]. split; intros ? H; by apply elem_of_nil in H. }
  cbn [parse_departures] in Hp.
  destruct v as [| | | | |m]; try done. cbn [simplified_departure] in Hp.
  destruct (parse_departures l) as [|parsed'] eqn:Hl; [done|].
  injection Hp as <-. destruct (IH parsed' eq_refl) as (Hlen & Hobj & Hdom).
  split; [cbn; by rewrite Hlen|]. split.
  - intros v Hv. apply elem_of_cons in Hv as [-> | Hv]; [by eexists|by apply Hobj].
  - intros record Hr. apply elem_of_cons in Hr as [-> | Hr]; [|by apply Hdom].
    rewrite !dom_insert_L, dom_singleton_L. cbn. set_solver.
Qed.

Lemma parse_departures_inl (raw_departures : list json) (v : json) :
  v ∈ raw_departures → (∀ m, v ≠ JObj m) →
  ∃ e, parse_departures raw_departures = inl e.
Proof.
  intros Hv Hno. induction raw_departures as [|w l IH]; [by apply elem_of_nil in Hv|].
  cbn [parse_departures].
  apply elem_of_cons in Hv as [<- | Hv].
  - destruct v; try (by eexists). by destruct (Hno m).
  - destruct (simplified_departure w); [by eexists|].
    destruct (IH Hv) as [e ->]. by eexists.
Qed.

(** X10.  A response is normalized as a whole or not at all: when every
    element of the departures list is an object the result has one
    record per element, and when some element is not an object the
    result is [None], whatever the other elements are. *)
Theorem fetch_all_or_nothing (api : string → response) (stop_id : string)
    (raw_data : gmap string json) (raw_departures : list json) :
  api (api_url stop_id) = Body (JObj raw_data) →
  raw_data !! "Abfahrten" = Some (JArr raw_departures) →
  ((∀ v, v ∈ raw_departures → ∃ m, v = JObj m) →
     ∃ parsed, fetch_and_parse_departures api stop_id = Some parsed
               ∧ length parsed = length raw_departures)
  ∧ ((∃ v, v ∈ raw_departures ∧ ∀ m, v ≠ JObj m) →
     fetch_and_parse_departures api stop_id = None).
Proof.
  intros Hresp Hfield. unfold fetch_and_parse_departures.
  rewrite Hresp. cbn [try_fetch]. rewrite Hfield. cbn [default from_option id].
  split.
  - intros Hall.
    destruct (parse_departures raw_departures) as [e|parsed] eqn:Hp.
    + exfalso. clear Hresp Hfield. induction raw_departures as [|v l IH]; [done|].
      cbn [parse_departures] in Hp.
      destruct (Hall v ltac:(left)) as [m ->]. cbn [simplified_departure] in Hp.
      destruct (parse_departures l) eqn:Hl; [|done].
      eapply IH; [|done]. intros w Hw. apply Hall. by right.
    + exists parsed. split; [done|]. by apply parse_departures_inr.
  - intros (v & Hv & Hno).
    destruct (parse_departures_inl raw_departures v Hv Hno) as [e ->].
    by destruct e.
Qed.

Lemma fetch_all_or_nothing_witness :
  fetch_and_parse_departures
    (λ _, Body (JObj {[ "Abfahrten" := JArr [ JObj ∅; JNum 7 ] ]})) "510"
  = None.
Proof.
  destruct (fetch_all_or_nothing
              (λ _, Body (JObj {[ "Abfahrten" := JArr [ JObj ∅; JNum 7 ] ]})) "510"
              {[ "Abfahrten" := JArr [ JObj ∅; JNum 7 ] ]} [ JObj ∅; JNum 7 ])
    as [_ Hnone]; [reflexivity | reflexivity |].
  apply Hnone. exists (JNum 7). split; [right; left|discriminate].
Defined.

Lemma fetched_record_fields (api : string → response) (stop_id : string)
    (records : list (gmap string json)) (record : gmap string json) :
  fetch_and_parse_departures api stop_id = Some records →
  record ∈ records →
  dom record = list_to_set FIELDS.*1.
Proof.
  unfold fetch_and_parse_departures. intros Hf Hr.
  destruct (try_fetch (api (api_url stop_id))) as [e|parsed] eqn:Ht;
    [by destruct e|].
  injection Hf as ->. unfold try_fetch in Ht.
  destruct (api (api_url stop_id)) as [| | | |[| | | | |raw_data]]; try done.
  destruct (default (JArr []) (raw_data !! "Abfahrten")) as [| | |s|l|m]; try done.
  - case_decide; [|done]. injection Ht as <-. by apply elem_of_nil in Hr.
  - by eapply parse_departures_inr.
  - case_decide; [|done]. injection Ht as <-. by apply elem_of_nil in Hr.
Qed.

Section FetchedCoverage.

Variable to_datetime : json → option Z.

(** X11.  Whatever the API answers, every record the fetcher returns
    has exactly the five internal fields; so a frame built from
    fetched records always has both time columns, its
    [total_departures] equals its [valid_delay_count], and the
    dashboard's coverage is 100 percent or not available. *)
Theorem fetched_records_fully_covered (records : list (gmap string json)) :
  (∀ record, record ∈ records →
     ∃ api stop_id fetched_records,
       fetch_and_parse_departures api stop_id = Some fetched_records
       ∧ record ∈ fetched_records) →
  let kpis := (calculate_regional_kpis (regional_frame to_datetime records)).1 in
  (∀ record, record ∈ records → dom record = list_to_set FIELDS.*1)
  ∧ kpis !! "total_departures" = kpis !! "valid_delay_count"
  ∧ (coverage_delta kpis = None
     ∨ ∃ q, coverage_delta kpis = Some q ∧ (q == 100)%Q).
Proof.
  intros Horigin kpis.
  assert (Hdom : ∀ record, record ∈ records → dom record = list_to_set FIELDS.*1).
  { intros record Hr. destruct (Horigin record Hr) as (api & stop_id & l & Hf & Hin).
    by eapply fetched_record_fields. }
  assert (Heq : kpis !! "total_departures" = kpis !! "valid_delay_count").
  { subst kpis. rewrite kpis_total_departures, kpis_valid_delay_count.
    rewrite regional_frame_defined_delays. unfold pd.len.
    rewrite regional_frame_rows. do 3 f_equal.
    destruct records as [|d l]; [by case_decide|].
    rewrite decide_True.
    - rewrite <- (length_fmap delay_minutes).
      unfold pd.DataFrame_of. cbn [rows].
      by rewrite annotate_record_delay, length_fmap.
    - unfold pd.DataFrame_of. cbn [columns fmap list_fmap union_list foldr].
      rewrite (Hdom d) by left. cbn. set_solver. }
  split; [done|]. split; [done|].
  unfold coverage_delta, kpi_count. rewrite Heq.
  subst kpis. rewrite kpis_valid_delay_count.
  destruct (Z.of_nat (length (defined_delays (regional_frame to_datetime records))))
    as [|p|p]; cbn [Z.ltb Z.compare]; [by left| |by left].
  right. eexists. split; [done|].
  unfold Qeq, Qdiv, Qinv, Qmult, inject_Z. cbn. lia.
Qed.

End FetchedCoverage.

Lemma fetched_records_fully_covered_witness :
  (calculate_regional_kpis
     (regional_frame epoch_seconds
        (default [] (fetch_and_parse_departures sparse_api "510")))).1
    !! "total_departures"
  = (calculate_regional_kpis
       (regional_frame epoch_seconds
          (default [] (fetch_and_parse_departures sparse_api "510")))).1
      !! "valid_delay_count".
Proof.
  apply (fetched_records_fully_covered epoch_seconds
           (default [] (fetch_and_parse_departures sparse_api "510"))).
  intros record Hr.
  exists sparse_api, "510", (default [] (fetch_and_parse_departures sparse_api "510")).
  split; [reflexivity|exact Hr].
Defined.

(** ** Polling cycle, again *)

Section CycleFacts.

Variable api : string → response.
Variable json_dumps : list (gmap string json) → string.
Variable FETCH_INTERVAL_SECONDS : Z.
Variable get_redis_conn : option Redis.

Lemma fetch_loop_writes (stops : list string) (r r' : Redis)
    (successful total : Z) (asked : list string) :
  redis_connection (fetch_loop api json_dumps FETCH_INTERVAL_SECONDS stops r
                      successful total asked) = Some r' →
  ∀ key, db r' !! key = db r !! key ∨ written api json_dumps FETCH_INTERVAL_SECONDS stops key (db r' !! key).
Proof.
  revert r successful total asked.
  induction stops as [|stop rest IH]; intros r successful total asked Hc key.
  { cbn in Hc. injection Hc as <-. by left. }
  cbn [fetch_loop] in Hc.
  assert (Hlater : ∀ k e, written api json_dumps FETCH_INTERVAL_SECONDS rest k e →
            written api json_dumps FETCH_INTERVAL_SECONDS (stop :: rest) k e).
  { intros k e (s & l & Hs & ?). exists s, l. split; [by right|done]. }
  destruct (fetch_and_parse_departures api stop) as [[|d l]|] eqn:Hf.
  - destruct (IH _ _ _ _ Hc key) as [-> | Hw]; [by left|right; by apply Hlater].
  - unfold redis_set in Hc.
    destruct (faults r) as [|[[|]|] more] eqn:Hfaults; cbn [tail] in Hc.
    + destruct (IH _ _ _ _ Hc key) as [Hk | Hw]; [|right; by apply Hlater].
      rewrite Hk. cbn [db]. destruct (decide (key = redis_key stop)) as [-> | Hne].
      * right. exists stop, (d :: l). rewrite lookup_insert_eq.
        split; [by left|]. done.
      * left. by rewrite lookup_insert_ne.
    + done.
    + destruct (IH _ _ _ _ Hc key) as [-> | Hw]; [by left|right; by apply Hlater].
    + destruct (IH _ _ _ _ Hc key) as [Hk | Hw]; [|right; by apply Hlater].
      rewrite Hk. cbn [db]. destruct (decide (key = redis_key stop)) as [-> | Hne].
      * right. exists stop, (d :: l). rewrite lookup_insert_eq.
        split; [by left|]. done.
      * left. by rewrite lookup_insert_ne.
  - destruct (IH _ _ _ _ Hc key) as [-> | Hw]; [by left|right; by apply Hlater].
Qed.

(** X12.  Whatever the connection does, a cycle that still holds its
    connection at the end has changed the store only by writing, under
    the key of a stop of its worklist, that stop's non-empty departure
    list with the expiry of interval plus 30 seconds; every other key
    holds what it held before, and no key has been deleted. *)
Theorem cycle_writes_only_departure_keys (stop_ids : list string) (r r' : Redis) :
  redis_connection (fetch_nuremberg_stops_job api json_dumps FETCH_INTERVAL_SECONDS
                      get_redis_conn stop_ids (Some r)) = Some r' →
  ∀ key,
    (db r' !! key = db r !! key
     ∨ written api json_dumps FETCH_INTERVAL_SECONDS (stops_to_fetch stop_ids) key
         (db r' !! key))
    ∧ (is_Some (db r !! key) → is_Some (db r' !! key)).
Proof.
  intros Hc key. unfold fetch_nuremberg_stops_job in Hc.
  assert (Hw : db r' !! key = db r !! key
               ∨ written api json_dumps FETCH_INTERVAL_SECONDS (stops_to_fetch stop_ids) key
         (db r' !! key)).
  { destruct stop_ids as [|s l]; [cbn in Hc; injection Hc as <-; by left|].
    by eapply fetch_loop_writes. }
  split; [done|]. intros Hsome.
  destruct Hw as [-> | (stop & l & _ & _ & _ & _ & ->)]; [done|by eexists].
Qed.

Lemma fetch_loop_counters (stops : list string) (r : Redis)
    (successful total : Z) (asked : list string) :
  let c := fetch_loop api json_dumps FETCH_INTERVAL_SECONDS stops r
             successful total asked in
  successful ≤ successful_fetches c
  ∧ successful_fetches c - successful
    ≤ Z.of_nat (length (fetched c)) - Z.of_nat (length asked)
  ∧ successful_fetches c - successful ≤ total_departures_stored c - total.
Proof.
  revert r successful total asked.
  induction stops as [|stop rest IH]; intros r successful total asked.
  { cbn. lia. }
  cbn [fetch_loop].
  assert (Hstep : ∀ r' s' t', successful ≤ s' ≤ successful + 1 →
            s' - successful ≤ t' - total →
            let c := fetch_loop api json_dumps FETCH_INTERVAL_SECONDS rest r' s' t'
                       (asked ++ [stop]) in
            successful ≤ successful_fetches c
            ∧ successful_fetches c - successful
              ≤ Z.of_nat (length (fetched c)) - Z.of_nat (length asked)
            ∧ successful_fetches c - successful ≤ total_departures_stored c - total).
  { intros r' s' t' Hs Ht c. destruct (IH r' s' t' (asked ++ [stop])) as (H1 & H2 & H3).
    fold c in H1, H2, H3. rewrite length_app in H2. cbn [length] in H2. lia. }
  destruct (fetch_and_parse_departures api stop) as [[|d l]|];
    [apply Hstep; lia| |apply Hstep; lia].
  destruct (redis_set _ _ _ _) as [r' [[|]|]].
  - cbn. rewrite length_app. cbn. lia.
  - apply Hstep; lia.
  - apply Hstep; [lia|]. cbn [length]. lia.
Qed.

(** X13.  The counters of a cycle: [successful_fetches] is at least 0
    and at most the number of stops asked, and never exceeds
    [total_departures_stored], every stored list being non-empty.  So
    the second CRITICAL message, for a cycle that stored lists but no
    departures, can never be logged. *)
Theorem cycle_counters (stop_ids : list string) (conn : option Redis) :
  let c := fetch_nuremberg_stops_job api json_dumps FETCH_INTERVAL_SECONDS
             get_redis_conn stop_ids conn in
  0 ≤ successful_fetches c ≤ Z.of_nat (length (fetched c))
  ∧ successful_fetches c ≤ total_departures_stored c
  ∧ final_alarm c ≠ Some NoDeparturesFound.
Proof.
  intros c.
  assert (H : 0 ≤ successful_fetches c ≤ Z.of_nat (length (fetched c))
              ∧ successful_fetches c ≤ total_departures_stored c).
  { subst c. unfold fetch_nuremberg_stops_job.
    destruct stop_ids as [|s l]; [cbn; lia|].
    destruct conn as [r|]; [|destruct get_redis_conn as [r|]; [|cbn; lia]].
    all: pose proof (fetch_loop_counters (stops_to_fetch (s :: l)) r 0 0 []) as Hc;
      cbn [length] in Hc; cbn zeta in Hc; lia. }
  split; [tauto|]. split; [tauto|].
  unfold final_alarm. repeat case_decide; try done. lia.
Qed.

Lemma fetch_loop_tolerant (stops : list string) (r : Redis)
    (successful total : Z) (asked : list string) :
  Some ConnectionError ∉ faults r →
  let c := fetch_loop api json_dumps FETCH_INTERVAL_SECONDS stops r
             successful total asked in
  fetched c = asked ++ stops ∧ is_Some (redis_connection c).
Proof.
  revert r successful total asked.
  induction stops as [|stop rest IH]; intros r successful total asked Hr.
  { cbn. by rewrite app_nil_r. }
  cbn [fetch_loop].
  assert (Hstep : ∀ r' s' t', Some ConnectionError ∉ faults r' →
            let c := fetch_loop api json_dumps FETCH_INTERVAL_SECONDS rest r' s' t'
                       (asked ++ [stop]) in
            fetched c = asked ++ stop :: rest ∧ is_Some (redis_connection c)).
  { intros r' s' t' Hr' c. destruct (IH r' s' t' (asked ++ [stop]) Hr') as [H1 H2].
    fold c in H1, H2. by rewrite H1, <- app_assoc. }
  destruct (fetch_and_parse_departures api stop) as [[|d l]|];
    [by apply Hstep| |by apply Hstep].
  unfold redis_set. destruct (faults r) as [|[[|]|] more] eqn:Hf; cbn [tail].
  - apply Hstep. cbn. set_solver.
  - exfalso. apply Hr. left.
  - apply Hstep. cbn. set_solver.
  - apply Hstep. cbn. set_solver.
Qed.

(** X14.  A write that fails with anything but a connection error does
    not end the cycle: as long as no command raises a connection
    error, the cycle asks for every stop of its worklist and keeps its
    connection. *)
Theorem cycle_survives_other_errors (stop_ids : list string) (r : Redis) :
  stop_ids ≠ [] → Some ConnectionError ∉ faults r →
  let c := fetch_nuremberg_stops_job api json_dumps FETCH_INTERVAL_SECONDS
             get_redis_conn stop_ids (Some r) in
  fetched c = stops_to_fetch stop_ids ∧ is_Some (redis_connection c).
Proof.
  intros Hne Hr c. subst c. unfold fetch_nuremberg_stops_job.
  destruct stop_ids as [|s l]; [done|].
  by apply (fetch_loop_tolerant (stops_to_fetch (s :: l)) r 0 0 []).
Qed.

(** X15.  A stop list without duplicates gives a worklist without
    duplicates: no stop is asked for twice in a cycle. *)
Theorem cycle_asks_each_stop_once (stop_ids : list string) (conn : option Redis) :
  NoDup stop_ids →
  NoDup (stops_to_fetch stop_ids)
  ∧ NoDup (fetched (fetch_nuremberg_stops_job api json_dumps FETCH_INTERVAL_SECONDS
                      get_redis_conn stop_ids conn)).
Proof.
  intros Hnd.
  assert (Hw : NoDup (stops_to_fetch stop_ids)).
  { unfold stops_to_fetch. eapply sublist_NoDup; [|apply sublist_take].
    apply NoDup_app. split; [|split].
    - apply (bool_decide_unpack _). by vm_compute.
    - intros x Hx Hf. apply list_elem_of_filter in Hf as [Hf _]. done.
    - by apply NoDup_filter. }
  split; [done|].
  destruct (job_fetched_prefix api json_dumps FETCH_INTERVAL_SECONDS get_redis_conn
              stop_ids conn) as [k Hk].
  rewrite Hk in Hw. by apply NoDup_app in Hw as [? _].
Qed.

End CycleFacts.

Lemma cycle_writes_only_departure_keys_witness :
  match redis_connection
          (fetch_nuremberg_stops_job sparse_api count_dumps 60 None ["510"]
             (Some (mkRedis {[ "other" := ("kept", 10) ]} [None; Some OtherError])))
  with
  | Some r' => is_Some (db r' !! "other")
  | None => True
  end.
Proof.
  destruct (redis_connection _) as [r'|] eqn:Hr'; [|exact I].
  apply (cycle_writes_only_departure_keys sparse_api count_dumps 60 None ["510"]
           (mkRedis {[ "other" := ("kept", 10) ]} [None; Some OtherError]) r' Hr'
           "other").
  eexists. reflexivity.
Defined.

Lemma cycle_survives_other_errors_witness :
  fetched (fetch_nuremberg_stops_job sparse_api count_dumps 60 None ["510"]
             (Some flaky_redis))
  = stops_to_fetch ["510"].
Proof.
  apply (cycle_survives_other_errors sparse_api count_dumps 60 None ["510"]
           flaky_redis).
  - discriminate.
  - unfold flaky_redis. cbn [faults]. rewrite !not_elem_of_cons.
    repeat split; try discriminate. apply not_elem_of_nil.
Defined.

Lemma cycle_asks_each_stop_once_witness :
  NoDup (stops_to_fetch sample_stop_ids).
Proof.
  apply (cycle_asks_each_stop_once sparse_api count_dumps 60 None sample_stop_ids
           (Some fresh_redis)).
  apply (bool_decide_unpack _). vm_compute. exact I.
Defined.

(** ** From the fetcher through the cache to the reader *)

Section RoundTrip.

Variable api : string → response.
Variable json_dumps : list (gmap string json) → string.
Variable FETCH_INTERVAL_SECONDS : Z.
Variable get_redis_conn : option Redis.
Variable to_datetime : json → option Z.
Variable json_loads : string → option json.
Variable irregular_frame : json → option DataFrame.

(** X16.  What a cycle stores for a stop is what the reader gets back:
    after a cycle on a healthy connection, reading a stop whose fetch
    gave a non-empty list yields the frame of exactly the fetched
    records, provided [json.loads] inverts [json.dumps] on that list
    (whose serialization is never the empty string). *)
Theorem cached_departures_read_back (stop_ids : list string) (r : Redis)
    (stop : string) (departures : list (gmap string json)) :
  faults r = [] → stop_ids ≠ [] →
  stop ∈ stops_to_fetch stop_ids →
  fetch_and_parse_departures api stop = Some departures →
  departures ≠ [] →
  json_dumps departures ≠ "" →
  json_loads (json_dumps departures) = Some (JArr (JObj <$> departures)) →
  ∃ r',
    redis_connection
      (fetch_nuremberg_stops_job api json_dumps FETCH_INTERVAL_SECONDS
         get_redis_conn stop_ids (Some r)) = Some r'
    ∧ get_live_departures_for_stop to_datetime json_loads irregular_frame (Some r') stop
      = Return (regional_frame to_datetime departures).
Proof.
  intros Hr Hne Hin Hfetch Hnonempty Hdumps Hloads.
  unfold fetch_nuremberg_stops_job. destruct stop_ids as [|s l]; [done|].
  destruct (fetch_loop_healthy api json_dumps FETCH_INTERVAL_SECONDS
              (stops_to_fetch (s :: l)) r 0 0 [] Hr)
    as (r' & s' & t' & -> & Hr' & Hdb).
  exists r'. split; [done|].
  eapply live_frame_records; [done| |done|done].
  rewrite Hdb, Hfetch. destruct departures as [|d0 l0]; [done|].
  by rewrite decide_True.
Qed.

End RoundTrip.

Lemma cached_departures_read_back_witness :
  ∃ r',
    redis_connection
      (fetch_nuremberg_stops_job sparse_api count_dumps 60 None ["510"]
         (Some fresh_redis)) = Some r'
    ∧ get_live_departures_for_stop epoch_seconds sparse_loads strict_frame (Some r') "510"
      = Return (regional_frame epoch_seconds
                  (default [] (fetch_and_parse_departures sparse_api "510"))).
Proof.
  apply (cached_departures_read_back sparse_api count_dumps 60 None epoch_seconds
           sparse_loads strict_frame ["510"] fresh_redis "510"
           (default [] (fetch_and_parse_departures sparse_api "510"))).
  - reflexivity.
  - discriminate.
  - left.
  - reflexivity.
  - vm_compute. discriminate.
  - vm_compute. discriminate.
  - reflexivity.
Defined.

(** ** Static query layer, again *)

Lemma route_type_name_cases (route_type : Z) :
  route_type_name route_type
  = if decide (route_type ∈ [0; 1; 2; 3; 4; 5; 6; 7; 11; 12])
    then default "" (ROUTE_TYPE_MAP !! route_type)
    else "Other/" +:+ pretty route_type.
Proof.
  unfold route_type_name. case_decide as Hin.
  - repeat (apply elem_of_cons in Hin as [-> | Hin]; [reflexivity|]).
    by apply elem_of_nil in Hin.
  - assert (Hnone : ROUTE_TYPE_MAP !! route_type = None).
    { unfold ROUTE_TYPE_MAP. apply not_elem_of_list_to_map_1. exact Hin. }
    by rewrite Hnone.
Qed.

Lemma route_type_name_inj (a b : Z) :
  route_type_name a = route_type_name b → a = b.
Proof.
  rewrite !route_type_name_cases.
  destruct (decide (a ∈ _)) as [Ha | Ha], (decide (b ∈ _)) as [Hb | Hb].
  - repeat (apply elem_of_cons in Ha as [-> | Ha];
            [repeat (apply elem_of_cons in Hb as [-> | Hb];
                     [first [by intros _ | by (vm_compute; intros [=])]|]);
             by apply elem_of_nil in Hb|]).
    by apply elem_of_nil in Ha.
  - repeat (apply elem_of_cons in Ha as [-> | Ha]; [by (vm_compute; intros [=])|]).
    by apply elem_of_nil in Ha.
  - repeat (apply elem_of_cons in Hb as [-> | Hb]; [by (vm_compute; intros [=])|]).
    by apply elem_of_nil in Hb.
  - cbn. intros [= H]. by apply (inj pretty).
Qed.

(** X17.  Relabelling keeps the route type counts apart: the result
    has the counts of the query rows in their order, and when the rows
    have distinct route types, as [GROUP BY route_type] delivers them,
    the labels are distinct as well, unmapped codes included. *)
Theorem route_type_counts_relabelled (e : Engine) (df : list (Z * Z)) :
  route_type_rows e = Fetched df →
  (get_route_type_counts (Some e)).*2 = df.*2
  ∧ (NoDup df.*1 → NoDup (get_route_type_counts (Some e)).*1).
Proof.
  intros Hq. unfold get_route_type_counts. rewrite Hq.
  rewrite <- !list_fmap_compose. split; [done|].
  intros Hnd.
  change (fst ∘ _) with (route_type_name ∘ (fst : Z * Z → Z)).
  rewrite list_fmap_compose. apply NoDup_fmap_2; [|done].
  intros a b. apply route_type_name_inj.
Qed.

Lemma route_type_counts_relabelled_witness :
  (get_route_type_counts (Some one_stop_engine)).*2 = [1].
Proof.
  apply (route_type_counts_relabelled one_stop_engine [(1, 1)]). reflexivity.
Defined.

(** ** Engine creation and start-up *)

(** X18.  [get_engine] returns an engine exactly when [DB_TYPE] is
    unset or ["postgresql"], the five connection variables are set and
    connecting with the string built from them succeeds.  A [KeyError]
    names a variable that is indeed unset and is raised whatever the
    database would answer; a [ValueError] means a foreign [DB_TYPE]. *)
Theorem get_engine_outcomes (environ : gmap string string)
    (connect : string → option Engine) :
  (∀ engine,
      get_engine environ connect = inr engine
      ↔ default "postgresql" (environ !! "DB_TYPE") = "postgresql"
        ∧ ∃ user password host port dbname,
            environ !! "PG_USER" = Some user
            ∧ environ !! "PG_PASS" = Some password
            ∧ environ !! "PG_HOST" = Some host
            ∧ environ !! "PG_PORT" = Some port
            ∧ environ !! "PG_DBNAME" = Some dbname
            ∧ connect (connection_str user password host port dbname) = Some engine)
  ∧ (∀ name,
       get_engine environ connect = inl (db_utils.KeyError name) →
       environ !! name = None
       ∧ name ∈ ["PG_USER"; "PG_PASS"; "PG_HOST"; "PG_PORT"; "PG_DBNAME"]
       ∧ ∀ connect', get_engine environ connect' = inl (db_utils.KeyError name))
  ∧ (get_engine environ connect = inl db_utils.ValueError
     ↔ default "postgresql" (environ !! "DB_TYPE") ≠ "postgresql").
Proof.
  unfold get_engine.
  destruct (decide (default "postgresql" (environ !! "DB_TYPE") = "postgresql"))
    as [Ht | Ht].
  2: { split; [|split]; [intros engine; split; [done|by intros [? _]]|done|done]. }
  destruct (environ !! "PG_USER") as [user|] eqn:Huser.
  2: { split; [|split]; [| |done].
       - intros engine. split; [done|]. by intros (_ & ? & ? & ? & ? & ? & ? & _).
       - intros name [= <-]. split; [done|]. split; [set_solver|done]. }
  destruct (environ !! "PG_PASS") as [password|] eqn:Hpass.
  2: { split; [|split]; [| |done].
       - intros engine. split; [done|]. by intros (_ & ? & ? & ? & ? & ? & _ & ? & _).
       - intros name [= <-]. split; [done|]. split; [set_solver|done]. }
  destruct (environ !! "PG_HOST") as [host|] eqn:Hhost.
  2: { split; [|split]; [| |done].
       - intros engine. split; [done|].
         by intros (_ & ? & ? & ? & ? & ? & _ & _ & ? & _).
       - intros name [= <-]. split; [done|]. split; [set_solver|done]. }
  destruct (environ !! "PG_PORT") as [port|] eqn:Hport.
  2: { split; [|split]; [| |done].
       - intros engine. split; [done|].
         by intros (_ & ? & ? & ? & ? & ? & _ & _ & _ & ? & _).
       - intros name [= <-]. split; [done|]. split; [set_solver|done]. }
  destruct (environ !! "PG_DBNAME") as [dbname|] eqn:Hdb.
  2: { split; [|split]; [| |done].
       - intros engine. split; [done|].
         by intros (_ & ? & ? & ? & ? & ? & _ & _ & _ & _ & ? & _).
       - intros name [= <-]. split; [done|]. split; [set_solver|done]. }
  split; [|split].
  - intros engine. split.
    + intros He. split; [done|]. exists user, password, host, port, dbname.
      repeat split. by destruct (connect _) as [e|]; simplify_eq.
    + intros (_ & ? & ? & ? & ? & ? & ? & ? & ? & ? & ? & Hc). simplify_eq.
      by rewrite Hc.
  - intros name He. by destruct (connect _).
  - split; [|done]. by destruct (connect _).
Qed.

Lemma get_engine_outcomes_witness :
  get_engine sample_environ open_server = inr one_stop_engine.
Proof.
  apply (get_engine_outcomes sample_environ open_server).
  split; [reflexivity|].
  exists "vgn", "secret", "localhost", "5432", "gtfs". repeat split.
Defined.

(** X19.  Run as a script, [main] either schedules the job or ends
    with exit status 1.  It schedules exactly when [get_engine] returns
    an engine and Redis is reachable, and then monitors the stops of
    the region and the fallback ids, at least eight stops with the
    three priority ids among them, whatever the database holds.  It
    ends exactly when [get_engine] raises, which nothing catches, or
    Redis is unreachable: the exits after "Could not connect to
    database" and "Could not find any stop IDs" are never taken. *)
Theorem main_reaches_scheduler (environ : gmap string string)
    (connect : string → option Engine) (get_redis_conn : option Redis) :
  (∀ stops redis_conn,
      main environ connect get_redis_conn = Scheduled stops redis_conn
      ↔ ∃ engine, get_engine environ connect = inr engine
                  ∧ get_redis_conn = Some redis_conn
                  ∧ stops = monitored_stops engine)
  ∧ (∀ status why,
       main environ connect get_redis_conn = Terminated status why
       ↔ status = 1
         ∧ ((∃ e, why = Uncaught e ∧ get_engine environ connect = inl e)
            ∨ (why = NoRedis
               ∧ (∃ engine, get_engine environ connect = inr engine)
               ∧ get_redis_conn = None)))
  ∧ (∀ stops redis_conn,
       main environ connect get_redis_conn = Scheduled stops redis_conn →
       (∀ p, p ∈ priority_stops ++ fallback_ids → p ∈ stops)
       ∧ (8 ≤ size stops)%nat).
Proof.
  assert (Hmain : main environ connect get_redis_conn
                  = match get_engine environ connect with
                    | inl e => Terminated 1 (Uncaught e)
                    | inr engine =>
                        match get_redis_conn with
                        | None => Terminated 1 NoRedis
                        | Some redis_conn => Scheduled (monitored_stops engine) redis_conn
                        end
                    end).
  { unfold main, monitored_stops.
    destruct (get_engine environ connect) as [e|engine]; [done|].
    destruct get_redis_conn as [redis_conn|]; [|done].
    destruct (get_stops_by_region (Some engine) REGION_NAME) as [|s l] eqn:Hs; [|done].
    exfalso. unfold get_stops_by_region, REGION_NAME in Hs.
    assert (Hmap : prefix_map !! "Nuremberg" = Some "de:09564:%") by reflexivity.
    rewrite Hmap, decide_True in Hs by done.
    by apply app_eq_nil in Hs as [_ ?]. }
  rewrite Hmain. clear Hmain.
  destruct (get_engine environ connect) as [e|engine].
  { split; [|split]; try done.
    - intros stops c. split; [done|]. by intros (? & ? & _).
    - intros status why. split.
      + intros [= <- <-]. split; [done|]. left. by exists e.
      + intros [-> [(e' & -> & [= <-]) | (_ & [? ?] & _)]]; done. }
  destruct get_redis_conn as [redis_conn|].
  2: { split; [|split]; try done.
       - intros stops c. split; [done|]. by intros (? & _ & ? & _).
       - intros status why. split.
         + intros [= <- <-]. split; [done|]. right. split; [done|]. split; [by eexists|done].
         + intros [-> [(e' & _ & ?) | (-> & _ & _)]]; done. }
  split; [|split].
  - intros stops c. split.
    + intros [= <- <-]. by exists engine.
    + intros (engine' & [= <-] & [= <-] & ->). done.
  - intros status why. split; [done|].
    intros [_ [(e' & _ & ?) | (_ & _ & ?)]]; done.
  - intros stops c [= <- _].
    assert (Hall : ∀ p, p ∈ priority_stops ++ fallback_ids → p ∈ monitored_stops engine).
    { intros p Hp. apply elem_of_app in Hp as [Hp | Hp].
      - by apply monitored_stops_priority.
      - unfold monitored_stops. rewrite elem_of_list_to_set, elem_of_app. by right. }
    split; [done|].
    assert (Hsub : (list_to_set (priority_stops ++ fallback_ids) : gset string)
                   ⊆ monitored_stops engine).
    { intros p Hp. apply Hall. by apply elem_of_list_to_set in Hp. }
    apply subseteq_size in Hsub.
    assert (Hsize : size (list_to_set (priority_stops ++ fallback_ids) : gset string)
                    = 8%nat) by (by vm_compute).
    lia.
Qed.

Lemma main_reaches_scheduler_witness :
  main sample_environ open_server (Some fresh_redis)
  = Scheduled (monitored_stops one_stop_engine) fresh_redis.
Proof.
  apply (main_reaches_scheduler sample_environ open_server (Some fresh_redis)).
  exists one_stop_engine. repeat split.
Defined.
